(** * ResultStore writer: a shallow embedding of package [writer]

    The Go package uploads an invocation and its resources to ResultStore
    through the UploadBatch API: a [writer] buffers upload requests, sends
    them in batches under an exponential-backoff retry loop, and rotates a
    resume token from batch to batch.

    Modelling conventions.
    - A Go [error] value is [option error]; [None] is [nil].
    - The remote service and the passing of time are outside the package.
      Every RPC is recorded in a call log kept in the [World]; the client
      answers as a function of the log so far and of the request, and a
      [Context] reports [ctx.Err()] as a function of the log.
    - [uuid.New()] draws from a generator held by the [World].
    - A nil-pointer dereference is the outcome [Panic].
    - Logging ([w.log]) has no effect on the behaviour and is left out. *)

From Stdlib Require Import List String Ascii NArith ZArith QArith Bool Arith Lia.
Import ListNotations.
Local Open Scope string_scope.
Local Open Scope nat_scope.

(** ** google.golang.org/grpc/codes

    Modelled from the spec: the status codes of the remote service named
    in the classification table; the package that declares them is not
    among the sources. The numbers are those of gRPC. *)

Module codes.
(** [type Code uint32]; no arithmetic is ever done on a code. *)
Definition Code := N.
Definition OK : Code := 0%N.
Definition Canceled : Code := 1%N.
Definition Unknown : Code := 2%N.
Definition InvalidArgument : Code := 3%N.
Definition DeadlineExceeded : Code := 4%N.
Definition NotFound : Code := 5%N.
Definition AlreadyExists : Code := 6%N.
Definition PermissionDenied : Code := 7%N.
Definition ResourceExhausted : Code := 8%N.
Definition FailedPrecondition : Code := 9%N.
Definition Aborted : Code := 10%N.
Definition OutOfRange : Code := 11%N.
Definition Unimplemented : Code := 12%N.
Definition Internal : Code := 13%N.
Definition Unavailable : Code := 14%N.
Definition DataLoss : Code := 15%N.
Definition Unauthenticated : Code := 16%N.
End codes.

(** ** ResultStore messages (genproto resultstore/v2)

    Modelled from the spec: the message types of the remote service, which
    are declared outside the sources. Only the identity fields are read by
    the package; the remaining fields of a resource travel untouched and
    are kept as one opaque [string]. *)

Record Invocation := { inv_Name : string; inv_Body : string }.

Record Configuration_Id :=
  { cfgid_InvocationId : string; cfgid_ConfigurationId : string }.
Record Configuration :=
  { cfg_Name : string; cfg_Id : option Configuration_Id; cfg_Body : string }.

Record Target_Id := { tgtid_InvocationId : string; tgtid_TargetId : string }.
Record Target :=
  { tgt_Name : string; tgt_Id : option Target_Id; tgt_Body : string }.

Record ConfiguredTarget_Id :=
  { ctid_InvocationId : string; ctid_TargetId : string;
    ctid_ConfigurationId : string }.
Record ConfiguredTarget :=
  { ct_Name : string; ct_Id : option ConfiguredTarget_Id; ct_Body : string }.

Record Action_Id :=
  { actid_InvocationId : string; actid_TargetId : string;
    actid_ConfigurationId : string; actid_ActionId : string }.
Record Action :=
  { act_Name : string; act_Id : option Action_Id; act_Body : string }.

Inductive UploadRequest_UploadOperation :=
| UploadRequest_UPLOAD_OPERATION_UNSPECIFIED
| UploadRequest_CREATE
| UploadRequest_UPDATE
| UploadRequest_MERGE
| UploadRequest_FINALIZE.

Record UploadRequest_Id :=
  { TargetId : string; ConfigurationId : string; ActionId : string }.

(** The [Resource] oneof of an upload request. [finalizeRequest] wraps no
    invocation at all, hence the [option]. *)
Inductive UploadRequest_Resource :=
| UploadRequest_Invocation (i : option Invocation)
| UploadRequest_Configuration (c : Configuration)
| UploadRequest_Target (t : Target)
| UploadRequest_ConfiguredTarget (ct : ConfiguredTarget)
| UploadRequest_Action (a : Action).

Record UploadRequest :=
  { Id : option UploadRequest_Id;
    UploadOperation : UploadRequest_UploadOperation;
    Resource : UploadRequest_Resource }.

Record CreateInvocationRequest :=
  { cir_InvocationId : string;
    cir_Invocation : option Invocation;
    cir_AuthorizationToken : string;
    InitialResumeToken : string }.

Record TouchInvocationRequest :=
  { tir_Name : string; tir_AuthorizationToken : string }.

Record GetInvocationUploadMetadataRequest :=
  { gmr_Name : string; gmr_AuthorizationToken : string }.

Record UploadMetadata := { um_Name : string; um_ResumeToken : string }.

Record UploadBatchRequest :=
  { Parent : string;
    ResumeToken : string;
    NextResumeToken : string;
    ubr_AuthorizationToken : string;
    UploadRequests : list UploadRequest }.

(** ** Errors *)

Inductive error :=
| statusError (c : codes.Code) (msg : string)
    (** an error that carries a gRPC status *)
| errorString (msg : string)
    (** any other error: [ErrWaitTimeout], a context error, ... *)
| Errorf (format : string) (v : UploadRequest)
    (** [fmt.Errorf(format, v)] *).

Definition ErrWaitTimeout : error :=
  errorString "timed out waiting for the condition".

(** google.golang.org/grpc/status

    Modelled from the spec: an absent status is read as OK and an error
    without status as Unknown; the package is not among the sources. *)
Module status.
(** A pointer to a status; [None] is the nil status. *)
Definition Status := option (codes.Code * string).

Definition FromError (err : option error) : Status * bool :=
  match err with
  | None => (None, true)
  | Some (statusError c m) => (Some (c, m), true)
  | Some (errorString m) => (Some (codes.Unknown, m), false)
  | Some (Errorf f _) => (Some (codes.Unknown, f), false)
  end.

(** The [Code] method of a status: a nil status reads as [OK]. *)
Definition Code (s : Status) : codes.Code :=
  match s with
  | None => codes.OK
  | Some (c, _) => c
  end.
End status.

(** The status code the classifiers look at. *)
Definition codeOf (err : option error) : codes.Code :=
  status.Code (fst (status.FromError err)).

(** The [switch] of [IsPermanentError], on the code alone. *)
Definition permanentCode (c : codes.Code) : bool :=
  if N.eqb c codes.AlreadyExists then true
  else if N.eqb c codes.NotFound then true
  else if N.eqb c codes.InvalidArgument then true
  else if N.eqb c codes.FailedPrecondition then true
  else if N.eqb c codes.Unimplemented then true
  else if N.eqb c codes.PermissionDenied then true
  else false.

Definition IsPermanentError (err : option error) : bool :=
  let '(st, _) := status.FromError err in
  permanentCode (status.Code st).

Definition IsAlreadyExistsErr (err : option error) : bool :=
  let '(st, _) := status.FromError err in
  N.eqb (status.Code st) codes.AlreadyExists.

Definition onlyPermanentError (err : option error) : option error :=
  if IsPermanentError err then err else None.

(** The six permanent codes of the classification table. *)
Definition permanentCodes : list codes.Code :=
  [ codes.AlreadyExists; codes.NotFound; codes.InvalidArgument;
    codes.FailedPrecondition; codes.Unimplemented; codes.PermissionDenied ].

(** ** The world outside the package *)

Inductive Call :=
| CallCreateInvocation (r : CreateInvocationRequest)
| CallTouchInvocation (r : TouchInvocationRequest)
| CallGetInvocationUploadMetadata (r : GetInvocationUploadMetadataRequest)
| CallUploadBatch (r : UploadBatchRequest).

(** [calls] is the log of the RPCs made so far, oldest first; [uuid_New n]
    is the string form of the [n]-th UUID the process draws and [drawn]
    counts the draws. *)
Record World :=
  { calls : list Call; uuid_New : nat -> string; drawn : nat }.

Definition record (c : Call) (world : World) : World :=
  {| calls := calls world ++ [c];
     uuid_New := uuid_New world;
     drawn := drawn world |}.

(** Package context.

    Modelled from the spec: the deadline and cancellation signal of the
    caller. A context is live, cancelled, or past its deadline; [Err] is
    [ctx.Err()]. *)
Module context.
Inductive state := Live | IsCanceled | IsDeadlineExceeded.

Definition Canceled : error := errorString "context canceled".
Definition DeadlineExceeded : error :=
  errorString "context deadline exceeded".

Definition Err (s : state) : option error :=
  match s with
  | Live => None
  | IsCanceled => Some Canceled
  | IsDeadlineExceeded => Some DeadlineExceeded
  end.
End context.

(** The state of a context, read against the call log. The context handed
    to an operation stands for the caller's context as narrowed by
    [context.WithTimeout(ctx, rpcRetryDuration)]. *)
Definition Context := list Call -> context.state.

(** [interface ResultStoreBatchClient]. The responses of CreateInvocation,
    TouchInvocation and UploadBatch are discarded by the package, so only
    their error is kept; GetInvocationUploadMetadata yields the metadata or
    an error. *)
Record ResultStoreBatchClient :=
  { CreateInvocation :
      list Call -> CreateInvocationRequest -> option error;
    GetInvocationUploadMetadata :
      list Call -> GetInvocationUploadMetadataRequest -> UploadMetadata + error;
    TouchInvocation :
      list Call -> TouchInvocationRequest -> option error;
    UploadBatch :
      list Call -> UploadBatchRequest -> option error }.

(** ** encoding/base64, [StdEncoding.EncodeToString]

    Modelled from the spec: the standard Base64 alphabet with padding. *)

Module base64.
Definition encodeStd : string :=
  "ABCDEFGHIJKLMNOPQRSTUVWXYZabcdefghijklmnopqrstuvwxyz0123456789+/".

Definition digit (v : N) : ascii :=
  match String.get (N.to_nat (v mod 64)) encodeStd with
  | Some c => c
  | None => "="%char
  end.

Fixpoint encode (src : list N) : string :=
  match src with
  | [] => ""
  | [a] =>
      let v := (a * 65536)%N in
      String (digit (v / 262144)) (String (digit (v / 4096)) "==")
  | [a; b] =>
      let v := (a * 65536 + b * 256)%N in
      String (digit (v / 262144))
        (String (digit (v / 4096)) (String (digit (v / 64)) "="))
  | a :: b :: c :: rest =>
      let v := (a * 65536 + b * 256 + c)%N in
      String (digit (v / 262144))
        (String (digit (v / 4096))
           (String (digit (v / 64)) (String (digit v) (encode rest))))
  end.

Definition EncodeToString (s : string) : string :=
  encode (map N_of_ascii (list_ascii_of_string s)).
End base64.

(** ** k8s.io/apimachinery/pkg/util/wait *)

Module wait.
(** Durations are nanoseconds, as in [time.Duration]. *)
Record Backoff :=
  { Duration : Z; Factor : Q; Cap : Z; Steps : nat; Jitter : Q }.

(** Modelled from the spec: the retry engine, which belongs to the wait
    package and is not among the sources. [ExponentialBackoffWithContext]
    runs [condition] until it reports done or an error, the context is
    done, or [steps] attempts have been made; running out of attempts is
    [ErrWaitTimeout]. The sleeps between attempts are not observable here;
    the context is consulted before every attempt. With the constants of
    this package the delay never reaches [Cap] within the allowed steps,
    so [Steps] alone bounds the number of attempts. *)
Fixpoint ExponentialBackoffWithContext {S : Type}
    (ctxErr : S -> option error) (steps : nat)
    (condition : S -> S * (bool * option error)) (s : S)
  : S * option error :=
  match steps with
  | O => (s, Some ErrWaitTimeout)
  | Datatypes.S steps' =>
      match ctxErr s with
      | Some e => (s, Some e)
      | None =>
          let '(s', (ok, err)) := condition s in
          match err with
          | Some e => (s', Some e)
          | None =>
              if ok then (s', None)
              else ExponentialBackoffWithContext ctxErr steps' condition s'
          end
      end
  end.
End wait.

(** ** Package constants *)

Definition batchSize : nat := 100.

Definition millisecond : Z := 1000000.
Definition second : Z := 1000 * millisecond.
Definition minute : Z := 60 * second.

Definition rpcRetryBackoff : wait.Backoff :=
  {| wait.Duration := 100 * millisecond;
     wait.Factor := 2 # 1;
     wait.Cap := 30 * second;
     wait.Steps := 8;
     wait.Jitter := 2 # 10 |}.

Definition rpcRetryDuration : Z := 5 * minute.

(** [resumeToken()]: the Base64 form of a fresh UUID. *)
Definition resumeToken (world : World) : string * World :=
  (base64.EncodeToString (uuid_New world (drawn world)),
   {| calls := calls world;
      uuid_New := uuid_New world;
      drawn := Datatypes.S (drawn world) |}).

(** ** The writer *)

Record writer :=
  { w_client : ResultStoreBatchClient;
    w_invID : string;
    w_authToken : string;
    w_resumeToken : string;
    w_updates : list UploadRequest;
    w_finalized : bool }.

Definition set_resumeToken (t : string) (w : writer) : writer :=
  {| w_client := w_client w; w_invID := w_invID w;
     w_authToken := w_authToken w; w_resumeToken := t;
     w_updates := w_updates w; w_finalized := w_finalized w |}.

Definition set_updates (us : list UploadRequest) (w : writer) : writer :=
  {| w_client := w_client w; w_invID := w_invID w;
     w_authToken := w_authToken w; w_resumeToken := w_resumeToken w;
     w_updates := us; w_finalized := w_finalized w |}.

Definition set_finalized (b : bool) (w : writer) : writer :=
  {| w_client := w_client w; w_invID := w_invID w;
     w_authToken := w_authToken w; w_resumeToken := w_resumeToken w;
     w_updates := w_updates w; w_finalized := b |}.

(** A writer together with the world it acts on. *)
Definition Machine : Type := writer * World.

Definition ctxErr (ctx : Context) (m : Machine) : option error :=
  context.Err (ctx (calls (snd m))).

(** ** Requests built from the writer *)

Definition createInvocationRequest (w : writer) (inv : option Invocation)
  : CreateInvocationRequest :=
  {| cir_InvocationId := w_invID w;
     cir_Invocation := inv;
     cir_AuthorizationToken := w_authToken w;
     InitialResumeToken := w_resumeToken w |}.

Definition invocationName (w : writer) : string :=
  "invocations/" ++ w_invID w.

Definition touchInvocationRequest (w : writer) : TouchInvocationRequest :=
  {| tir_Name := invocationName w;
     tir_AuthorizationToken := w_authToken w |}.

Definition uploadMetadataName (w : writer) : string :=
  "invocations/" ++ w_invID w ++ "/uploadMetadata".

Definition getInvocationUploadMetadataRequest (w : writer)
  : GetInvocationUploadMetadataRequest :=
  {| gmr_Name := uploadMetadataName w;
     gmr_AuthorizationToken := w_authToken w |}.

(** [uploadBatchRequest]: draws the next token, builds the request from
    the current one, and stores the next token in the writer. *)
Definition uploadBatchRequest (reqs : list UploadRequest) (m : Machine)
  : UploadBatchRequest * Machine :=
  let '(w, world) := m in
  let '(nextToken, world) := resumeToken world in
  let req :=
    {| Parent := invocationName w;
       ResumeToken := w_resumeToken w;
       NextResumeToken := nextToken;
       ubr_AuthorizationToken := w_authToken w;
       UploadRequests := reqs |} in
  (req, (set_resumeToken nextToken w, world)).

Definition finalizeRequest (w : writer) : UploadRequest :=
  {| Id := None;
     UploadOperation := UploadRequest_FINALIZE;
     Resource := UploadRequest_Invocation None |}.

(** ** The retried RPCs *)

(** One attempt of [createInvocation]: the closure given to the retry
    engine. *)
Definition createInvocationAttempt (inv : option Invocation) (m : Machine)
  : Machine * (bool * option error) :=
  let '(w, world) := m in
  let req := createInvocationRequest w inv in
  let err := CreateInvocation (w_client w) (calls world) req in
  let world := record (CallCreateInvocation req) world in
  match err with
  | Some _ => ((w, world), (false, onlyPermanentError err))
  | None => ((w, world), (true, None))
  end.

Definition createInvocation (ctx : Context) (inv : option Invocation)
    (m : Machine) : Machine * option error :=
  wait.ExponentialBackoffWithContext (ctxErr ctx)
    (wait.Steps rpcRetryBackoff) (createInvocationAttempt inv) m.

Definition touchInvocationAttempt (m : Machine)
  : Machine * (bool * option error) :=
  let '(w, world) := m in
  let req := touchInvocationRequest w in
  let err := TouchInvocation (w_client w) (calls world) req in
  let world := record (CallTouchInvocation req) world in
  match err with
  | Some _ => ((w, world), (false, onlyPermanentError err))
  | None => ((w, world), (true, None))
  end.

Definition touchInvocation (ctx : Context) (m : Machine)
  : Machine * option error :=
  wait.ExponentialBackoffWithContext (ctxErr ctx)
    (wait.Steps rpcRetryBackoff) touchInvocationAttempt m.

Definition retrieveResumeTokenAttempt (m : Machine)
  : Machine * (bool * option error) :=
  let '(w, world) := m in
  let req := getInvocationUploadMetadataRequest w in
  let res := GetInvocationUploadMetadata (w_client w) (calls world) req in
  let world := record (CallGetInvocationUploadMetadata req) world in
  match res with
  | inr e => ((w, world), (false, onlyPermanentError (Some e)))
  | inl meta => ((set_resumeToken (um_ResumeToken meta) w, world), (true, None))
  end.

Definition retrieveResumeToken (ctx : Context) (m : Machine)
  : Machine * option error :=
  wait.ExponentialBackoffWithContext (ctxErr ctx)
    (wait.Steps rpcRetryBackoff) retrieveResumeTokenAttempt m.

(** One attempt of [flushUpdates] with the request [b] built beforehand. *)
Definition flushAttempt (b : UploadBatchRequest) (m : Machine)
  : Machine * (bool * option error) :=
  let '(w, world) := m in
  let err := UploadBatch (w_client w) (calls world) b in
  let world := record (CallUploadBatch b) world in
  match err with
  | Some e =>
      if IsPermanentError err then ((w, world), (false, Some e))
      else ((w, world), (false, None))
  | None => ((set_updates [] w, world), (true, None))
  end.

Definition flushUpdates (ctx : Context) (m : Machine)
  : Machine * option error :=
  let '(b, m) := uploadBatchRequest (w_updates (fst m)) m in
  wait.ExponentialBackoffWithContext (ctxErr ctx)
    (wait.Steps rpcRetryBackoff) (flushAttempt b) m.

Definition isFinalize (r : UploadRequest) : bool :=
  match UploadOperation r with
  | UploadRequest_FINALIZE => true
  | _ => false
  end.

Definition addUploadRequest (ctx : Context) (r : UploadRequest) (m : Machine)
  : Machine * option error :=
  let '(w, world) := m in
  if w_finalized w then
    (m, Some (Errorf "addUploadRequest after finalized for %v" r))
  else
    let w := if isFinalize r then set_finalized true w else w in
    let w := set_updates (w_updates w ++ [r]) w in
    if negb (w_finalized w) && (List.length (w_updates w) <? batchSize) then
      ((w, world), None)
    else flushUpdates ctx (w, world).

(** The error [addUploadRequest] returns on a finalized writer. *)
Definition afterFinalized (r : UploadRequest) : option error :=
  Some (Errorf "addUploadRequest after finalized for %v" r).

(** ** The open/resume handshake *)

Definition New (ctx : Context) (client : ResultStoreBatchClient)
    (inv : option Invocation) (invID authToken : string) (world : World)
  : option writer * option error * World :=
  let '(token, world) := resumeToken world in
  let w :=
    {| w_client := client; w_invID := invID; w_authToken := authToken;
       w_resumeToken := token; w_updates := []; w_finalized := false |} in
  let '((w, world), err) := createInvocation ctx inv (w, world) in
  match err with
  | None => (Some w, None, world)
  | Some _ =>
      if negb (IsAlreadyExistsErr err) then (None, err, world)
      else
        let '((w, world), touchErr) := touchInvocation ctx (w, world) in
        if IsPermanentError touchErr then (None, err, world)
        else
          let '((w, world), err) := retrieveResumeToken ctx (w, world) in
          match err with
          | Some _ => (None, err, world)
          | None => (Some w, None, world)
          end
  end.

(** ** Envelopes *)

(** The outcome of a call that may dereference a nil pointer. *)
Inductive outcome (A : Type) :=
| Panic
| Return (a : A).
Arguments Panic {A}.
Arguments Return {A} a.

Definition Target_Id_GetTargetId (x : option Target_Id) : string :=
  match x with Some i => tgtid_TargetId i | None => "" end.

Definition ConfiguredTarget_Id_GetTargetId (x : option ConfiguredTarget_Id)
  : string :=
  match x with Some i => ctid_TargetId i | None => "" end.

Definition ConfiguredTarget_Id_GetConfigurationId
    (x : option ConfiguredTarget_Id) : string :=
  match x with Some i => ctid_ConfigurationId i | None => "" end.

Definition Action_Id_GetTargetId (x : option Action_Id) : string :=
  match x with Some i => actid_TargetId i | None => "" end.

Definition Action_Id_GetConfigurationId (x : option Action_Id) : string :=
  match x with Some i => actid_ConfigurationId i | None => "" end.

Definition Action_Id_GetActionId (x : option Action_Id) : string :=
  match x with Some i => actid_ActionId i | None => "" end.

(** The argument is a Go pointer: [None] is nil. [c.Id.ConfigurationId]
    reads through [c] and through [c.Id] with no getter. The resource put
    in the envelope is the caller's object after [c.Id = nil]. *)
Definition createConfigurationUploadRequest (c : option Configuration)
  : outcome UploadRequest :=
  match c with
  | None => Panic
  | Some c =>
      match cfg_Id c with
      | None => Panic
      | Some cid =>
          Return
            {| Id := Some {| TargetId := "";
                             ConfigurationId := cfgid_ConfigurationId cid;
                             ActionId := "" |};
               UploadOperation := UploadRequest_CREATE;
               Resource :=
                 UploadRequest_Configuration
                   {| cfg_Name := cfg_Name c; cfg_Id := None;
                      cfg_Body := cfg_Body c |} |}
      end
  end.

Definition createTargetUploadRequest (t : option Target)
  : outcome UploadRequest :=
  match t with
  | None => Panic
  | Some t =>
      Return
        {| Id := Some {| TargetId := Target_Id_GetTargetId (tgt_Id t);
                         ConfigurationId := "";
                         ActionId := "" |};
           UploadOperation := UploadRequest_CREATE;
           Resource :=
             UploadRequest_Target
               {| tgt_Name := tgt_Name t; tgt_Id := None;
                  tgt_Body := tgt_Body t |} |}
  end.

Definition createConfiguredTargetUploadRequest (ct : option ConfiguredTarget)
  : outcome UploadRequest :=
  match ct with
  | None => Panic
  | Some ct =>
      Return
        {| Id :=
             Some {| TargetId := ConfiguredTarget_Id_GetTargetId (ct_Id ct);
                     ConfigurationId :=
                       ConfiguredTarget_Id_GetConfigurationId (ct_Id ct);
                     ActionId := "" |};
           UploadOperation := UploadRequest_CREATE;
           Resource :=
             UploadRequest_ConfiguredTarget
               {| ct_Name := ct_Name ct; ct_Id := None;
                  ct_Body := ct_Body ct |} |}
  end.

Definition createActionUploadRequest (a : option Action)
  : outcome UploadRequest :=
  match a with
  | None => Panic
  | Some a =>
      Return
        {| Id :=
             Some {| TargetId := Action_Id_GetTargetId (act_Id a);
                     ConfigurationId := Action_Id_GetConfigurationId (act_Id a);
                     ActionId := Action_Id_GetActionId (act_Id a) |};
           UploadOperation := UploadRequest_CREATE;
           Resource :=
             UploadRequest_Action
               {| act_Name := act_Name a; act_Id := None;
                  act_Body := act_Body a |} |}
  end.

(** ** The public write operations *)

Definition andThen (ctx : Context) (r : outcome UploadRequest) (m : Machine)
  : outcome (Machine * option error) :=
  match r with
  | Panic => Panic
  | Return r => Return (addUploadRequest ctx r m)
  end.

Definition WriteConfiguration (ctx : Context) (c : option Configuration)
    (m : Machine) : outcome (Machine * option error) :=
  andThen ctx (createConfigurationUploadRequest c) m.

Definition WriteTarget (ctx : Context) (t : option Target) (m : Machine)
  : outcome (Machine * option error) :=
  andThen ctx (createTargetUploadRequest t) m.

Definition WriteConfiguredTarget (ctx : Context)
    (ct : option ConfiguredTarget) (m : Machine)
  : outcome (Machine * option error) :=
  andThen ctx (createConfiguredTargetUploadRequest ct) m.

Definition WriteAction (ctx : Context) (a : option Action) (m : Machine)
  : outcome (Machine * option error) :=
  andThen ctx (createActionUploadRequest a) m.

Definition Finalize (ctx : Context) (m : Machine) : Machine * option error :=
  addUploadRequest ctx (finalizeRequest (fst m)) m.

(** ** Callers

    A caller's script is a list of public operations, issued one after the
    other whatever each one returns; a panic ends the script. *)

Inductive Write :=
| WConfiguration (c : option Configuration)
| WTarget (t : option Target)
| WConfiguredTarget (ct : option ConfiguredTarget)
| WAction (a : option Action)
| WFinalize.

Definition isFinalizeWrite (op : Write) : bool :=
  match op with
  | WFinalize => true
  | _ => false
  end.

(** The envelope an operation hands to [addUploadRequest]. *)
Definition envelope (w : writer) (op : Write) : outcome UploadRequest :=
  match op with
  | WConfiguration c => createConfigurationUploadRequest c
  | WTarget t => createTargetUploadRequest t
  | WConfiguredTarget ct => createConfiguredTargetUploadRequest ct
  | WAction a => createActionUploadRequest a
  | WFinalize => Return (finalizeRequest w)
  end.

Definition perform (ctx : Context) (op : Write) (m : Machine)
  : outcome (Machine * option error) :=
  match op with
  | WConfiguration c => WriteConfiguration ctx c m
  | WTarget t => WriteTarget ctx t m
  | WConfiguredTarget ct => WriteConfiguredTarget ctx ct m
  | WAction a => WriteAction ctx a m
  | WFinalize => Return (Finalize ctx m)
  end.

Fixpoint performAll (ctx : Context) (ops : list Write) (m : Machine)
  : outcome (Machine * list (option error)) :=
  match ops with
  | [] => Return (m, [])
  | op :: ops' =>
      match perform ctx op m with
      | Panic => Panic
      | Return (m', e) =>
          match performAll ctx ops' m' with
          | Panic => Panic
          | Return (m'', es) => Return (m'', e :: es)
          end
      end
  end.

(** The batches sent by the UploadBatch calls of a log, oldest first. *)
Fixpoint batches (log : list Call) : list UploadBatchRequest :=
  match log with
  | [] => []
  | CallUploadBatch b :: log' => b :: batches log'
  | _ :: log' => batches log'
  end.

(** The machine after [n] attempts of one flush, taken in a row. *)
Fixpoint attempts (b : UploadBatchRequest) (n : nat) (m : Machine) : Machine :=
  match n with
  | O => m
  | Datatypes.S n' => attempts b n' (fst (flushAttempt b m))
  end.

(** The request a flush from the machine [(w, world)] sends. *)
Definition flushRequest (w : writer) (world : World) : UploadBatchRequest :=
  fst (uploadBatchRequest (w_updates w) (w, world)).

(** ** Fixtures: services and contexts used in the examples *)

Definition background : Context := fun _ => context.Live.

Definition uuidOf (n : nat) : string :=
  "123e4567-e89b-42d3-a456-" ++ String.concat "" (repeat "0" (11 - n))
    ++ String.concat "" (repeat "1" (Datatypes.S n)).

Definition world0 : World :=
  {| calls := []; uuid_New := uuidOf; drawn := 0 |}.

Definition serviceToken : string := base64.EncodeToString "held by the service".

(** A service that accepts everything. *)
Definition acceptingClient : ResultStoreBatchClient :=
  {| CreateInvocation := fun _ _ => None;
     GetInvocationUploadMetadata :=
       fun _ r => inl {| um_Name := gmr_Name r; um_ResumeToken := serviceToken |};
     TouchInvocation := fun _ _ => None;
     UploadBatch := fun _ _ => None |}.

(** A service on which the invocation exists and is still open. *)
Definition openClient : ResultStoreBatchClient :=
  {| CreateInvocation :=
       fun _ _ => Some (statusError codes.AlreadyExists "invocation exists");
     GetInvocationUploadMetadata :=
       fun _ r => inl {| um_Name := gmr_Name r; um_ResumeToken := serviceToken |};
     TouchInvocation := fun _ _ => None;
     UploadBatch := fun _ _ => None |}.

(** A service on which the invocation exists and is finalized. *)
Definition finalizedClient : ResultStoreBatchClient :=
  {| CreateInvocation :=
       fun _ _ => Some (statusError codes.AlreadyExists "invocation exists");
     GetInvocationUploadMetadata :=
       fun _ _ => inr (statusError codes.FailedPrecondition "finalized");
     TouchInvocation :=
       fun _ _ => Some (statusError codes.FailedPrecondition "finalized");
     UploadBatch :=
       fun _ _ => Some (statusError codes.FailedPrecondition "finalized") |}.

(** A service that rejects every batch with a permanent status. *)
Definition rejectingClient : ResultStoreBatchClient :=
  {| CreateInvocation := fun _ _ => None;
     GetInvocationUploadMetadata :=
       fun _ r => inl {| um_Name := gmr_Name r; um_ResumeToken := serviceToken |};
     TouchInvocation := fun _ _ => None;
     UploadBatch :=
       fun _ _ => Some (statusError codes.InvalidArgument "rejected") |}.

(** A service that is unavailable for the first two UploadBatch calls. *)
Definition flakyClient : ResultStoreBatchClient :=
  {| CreateInvocation := fun _ _ => None;
     GetInvocationUploadMetadata :=
       fun _ r => inl {| um_Name := gmr_Name r; um_ResumeToken := serviceToken |};
     TouchInvocation := fun _ _ => None;
     UploadBatch :=
       fun log _ =>
         if List.length (batches log) <? 2
         then Some (statusError codes.Unavailable "try again")
         else None |}.

Definition freshWriter (client : ResultStoreBatchClient) : writer :=
  {| w_client := client; w_invID := "inv-1"; w_authToken := "auth-1";
     w_resumeToken := base64.EncodeToString "initial";
     w_updates := []; w_finalized := false |}.

Definition someConfiguration : Configuration :=
  {| cfg_Name := "";
     cfg_Id := Some {| cfgid_InvocationId := "inv-1";
                       cfgid_ConfigurationId := "default" |};
     cfg_Body := "configuration" |}.

Definition someTarget : Target :=
  {| tgt_Name := "";
     tgt_Id := Some {| tgtid_InvocationId := "inv-1";
                       tgtid_TargetId := "//pkg:test" |};
     tgt_Body := "target" |}.

(** The envelope of [someTarget], and a writer one append short of a full
    batch. *)
Definition someTargetEnvelope : UploadRequest :=
  {| Id := Some {| TargetId := "//pkg:test"; ConfigurationId := "";
                   ActionId := "" |};
     UploadOperation := UploadRequest_CREATE;
     Resource :=
       UploadRequest_Target
         {| tgt_Name := ""; tgt_Id := None; tgt_Body := "target" |} |}.

Definition almostFull (client : ResultStoreBatchClient) : writer :=
  set_updates (repeat someTargetEnvelope (batchSize - 1)) (freshWriter client).

(** A service that is unavailable for every batch, and a context that has
    been cancelled. *)
Definition unavailableClient : ResultStoreBatchClient :=
  {| CreateInvocation := fun _ _ => None;
     GetInvocationUploadMetadata :=
       fun _ r => inl {| um_Name := gmr_Name r; um_ResumeToken := serviceToken |};
     TouchInvocation := fun _ _ => None;
     UploadBatch :=
       fun _ _ => Some (statusError codes.Unavailable "try again") |}.

Definition cancelled : Context := fun _ => context.IsCanceled.

(** A service that refuses the creation for a reason other than the
    invocation existing. *)
Definition forbiddingClient : ResultStoreBatchClient :=
  {| CreateInvocation :=
       fun _ _ => Some (statusError codes.PermissionDenied "forbidden");
     GetInvocationUploadMetadata :=
       fun _ r => inl {| um_Name := gmr_Name r; um_ResumeToken := serviceToken |};
     TouchInvocation := fun _ _ => None;
     UploadBatch := fun _ _ => None |}.

(** ** Reading a call log *)

(** The batches [bs] lead from the token [t] to the token [t']: each one
    is sent with the token the one before proposed as next. *)
Fixpoint linked (t : string) (bs : list UploadBatchRequest) (t' : string)
  : Prop :=
  match bs with
  | [] => t = t'
  | b :: bs' => ResumeToken b = t /\ linked (NextResumeToken b) bs' t'
  end.

(** The calls of the open/resume handshake. *)
Definition isHandshakeCall (c : Call) : bool :=
  match c with
  | CallUploadBatch _ => false
  | _ => true
  end.

(** The envelopes of a script, in order, up to the first operation whose
    envelope cannot be built. *)
Fixpoint envelopes (w : writer) (ops : list Write) : list UploadRequest :=
  match ops with
  | [] => []
  | op :: ops' =>
      match envelope w op with
      | Panic => []
      | Return r => r :: envelopes w ops'
      end
  end.

(** ** Reading a resume token *)

(** The characters of the string form of a UUID. *)
Definition uuidAlphabet : list ascii :=
  list_ascii_of_string "0123456789abcdef-".

(** A character that needs no escaping in a URL: a letter or a digit. *)
Definition webSafe (c : ascii) : bool :=
  let n := N_of_ascii c in
  ((48 <=? n) && (n <=? 57) || (65 <=? n) && (n <=? 90)
   || (97 <=? n) && (n <=? 122))%N.

(** The four characters [base64.encode] writes for three bytes are all
    web safe. *)
Definition tripleSafe (a b c : N) : bool :=
  let v := (a * 65536 + b * 256 + c)%N in
  forallb webSafe
    [ base64.digit (v / 262144); base64.digit (v / 4096);
      base64.digit (v / 64); base64.digit v ].

(** * Package lifecycle: the close handler

    The handler reacts to a comment on an issue or pull request. GitHub is
    outside the package: every call is recorded in a log and the client
    answers as a function of the log so far and of the arguments. *)

Module lifecycle.

Record User := { Login : string }.
Record Repo := { Owner : User; RepoName : string }.
Record Label := { LabelName : string; LabelRest : string }.

(** The fields of [github.GenericCommentEvent] the handler reads. *)
Record GenericCommentEvent :=
  { IssueState : string;
    Action : string;
    Body : string;
    HTMLURL : string;
    Number : Z;
    EventRepo : Repo;
    EventUser : User;
    IssueAuthor : User;
    IsPR : bool }.

(** What the handler takes from outside the file: the regular-expression
    engine ([MatchString] of a compiled pattern), [github.HasLabel],
    [plugins.FormatResponseRaw] and the constant
    [github.GenericCommentActionCreated]. *)
Record Imports :=
  { MatchString : string -> string -> bool;
    HasLabel : string -> list Label -> bool;
    FormatResponseRaw : string -> string -> string -> string -> string;
    GenericCommentActionCreated : string }.

(** The patterns, as written in the source. *)
Definition closeRe : string := "(?mi)^/close\s*$".
Definition closeNotPlannedRe : string := "(?mi)^/close not-planned\s*$".

Inductive GitHubCall :=
| IsCollaboratorCall (owner repo login : string)
| CreateCommentCall (owner repo : string) (number : Z) (comment : string)
| CloseIssueCall (owner repo : string) (number : Z)
| CloseIssueAsNotPlannedCall (org repo : string) (number : Z)
| ClosePullRequestCall (owner repo : string) (number : Z)
| GetIssueLabelsCall (owner repo : string) (number : Z).

(** [interface closeClient]: each method sees the log of the calls made
    before it. *)
Record closeClient :=
  { IsCollaborator :
      list GitHubCall -> string -> string -> string -> bool * option error;
    CreateComment :
      list GitHubCall -> string -> string -> Z -> string -> option error;
    CloseIssue : list GitHubCall -> string -> string -> Z -> option error;
    CloseIssueAsNotPlanned :
      list GitHubCall -> string -> string -> Z -> option error;
    ClosePullRequest :
      list GitHubCall -> string -> string -> Z -> option error;
    GetIssueLabels :
      list GitHubCall -> string -> string -> Z -> list Label * option error }.

(** The errors the handler returns: the error of a client call as it is,
    or one wrapped by [fmt.Errorf] with the verb [%w]. *)
Inductive closeError :=
| fromClient (err : error)
| wraps (format : string) (err : error).

Definition dq : string := String "034"%char EmptyString.

Definition isActive (imp : Imports) (gc : closeClient) (org repo : string)
    (number : Z) (log : list GitHubCall)
  : list GitHubCall * (bool * option closeError) :=
  let '(labels, err) := GetIssueLabels gc log org repo number in
  let log := (log ++ [GetIssueLabelsCall org repo number])%list in
  match err with
  | Some e => (log, (true, Some (wraps "list issue labels error: %w" e)))
  | None =>
      if HasLabel imp "lifecycle/stale" labels then (log, (false, None))
      else if HasLabel imp "lifecycle/rotten" labels then (log, (false, None))
      else (log, (true, None))
  end.

Definition comment (imp : Imports) (gc : closeClient)
    (e : GenericCommentEvent) (response : string) (log : list GitHubCall)
  : list GitHubCall * option closeError :=
  let org := Login (Owner (EventRepo e)) in
  let repo := RepoName (EventRepo e) in
  let text :=
    FormatResponseRaw imp (Body e) (HTMLURL e) (Login (EventUser e)) response in
  ((log ++ [CreateCommentCall org repo (Number e) text])%list,
   option_map fromClient (CreateComment gc log org repo (Number e) text)).

Definition handleClose (imp : Imports) (gc : closeClient)
    (e : GenericCommentEvent) (log : list GitHubCall)
  : list GitHubCall * option closeError :=
  if negb (String.eqb (IssueState e) "open")
     || negb (String.eqb (Action e) (GenericCommentActionCreated imp))
  then (log, None)
  else if negb (MatchString imp closeRe (Body e))
          && negb (MatchString imp closeNotPlannedRe (Body e))
  then (log, None)
  else
    let org := Login (Owner (EventRepo e)) in
    let repo := RepoName (EventRepo e) in
    let number := Number e in
    let commentAuthor := Login (EventUser e) in
    let isAuthor := String.eqb (Login (IssueAuthor e)) commentAuthor in
    let '(isCollaborator, _) := IsCollaborator gc log org repo commentAuthor in
    let log := (log ++ [IsCollaboratorCall org repo commentAuthor])%list in
    let '(log, (active, err)) := isActive imp gc org repo number log in
    let active := match err with Some _ => true | None => active end in
    if negb isAuthor && negb isCollaborator && active then
      comment imp gc e
        "You can't close an active issue/PR unless you authored it or you are a collaborator."
        log
    else if IsPR e then
      if MatchString imp closeNotPlannedRe (Body e) then
        comment imp gc e "PRs cannot be closed as Not Planned." log
      else
        match ClosePullRequest gc log org repo number with
        | Some err =>
            ((log ++ [ClosePullRequestCall org repo number])%list,
             Some (wraps "Error closing PR: %w" err))
        | None =>
            comment imp gc e "Closed this PR."
              (log ++ [ClosePullRequestCall org repo number])%list
        end
    else if MatchString imp closeNotPlannedRe (Body e) then
      match CloseIssueAsNotPlanned gc log org repo number with
      | Some err =>
          ((log ++ [CloseIssueAsNotPlannedCall org repo number])%list,
           Some (wraps ("Error closing issue as " ++ dq ++ "Not Planned" ++ dq
                          ++ ": %w") err))
      | None =>
          comment imp gc e
            ("Closing this issue, marking it as " ++ dq ++ "Not Planned" ++ dq
               ++ ".")
            (log ++ [CloseIssueAsNotPlannedCall org repo number])%list
      end
    else
      match CloseIssue gc log org repo number with
      | Some err =>
          ((log ++ [CloseIssueCall org repo number])%list,
           Some (wraps "Error closing issue: %w" err))
      | None =>
          comment imp gc e "Closing this issue."
            (log ++ [CloseIssueCall org repo number])%list
      end.

(** The calls that close something. *)
Definition isCloseCall (c : GitHubCall) : bool :=
  match c with
  | CloseIssueCall _ _ _ => true
  | CloseIssueAsNotPlannedCall _ _ _ => true
  | ClosePullRequestCall _ _ _ => true
  | _ => false
  end.

(** The event is one the handler acts on: an open issue or pull request,
    a new comment, and a body with one of the two commands. *)
Definition relevant (imp : Imports) (e : GenericCommentEvent) : bool :=
  String.eqb (IssueState e) "open"
  && String.eqb (Action e) (GenericCommentActionCreated imp)
  && (MatchString imp closeRe (Body e)
      || MatchString imp closeNotPlannedRe (Body e)).

(** The commenter may close: the author, a collaborator, or anyone when
    the labels were read and one of them is stale or rotten. *)
Definition mayClose (imp : Imports) (gc : closeClient)
    (e : GenericCommentEvent) (log : list GitHubCall) : bool :=
  let org := Login (Owner (EventRepo e)) in
  let repo := RepoName (EventRepo e) in
  let author := Login (EventUser e) in
  let log1 := (log ++ [IsCollaboratorCall org repo author])%list in
  String.eqb (Login (IssueAuthor e)) author
  || fst (IsCollaborator gc log org repo author)
  || match GetIssueLabels gc log1 org repo (Number e) with
     | (_, Some _) => false
     | (labels, None) =>
         HasLabel imp "lifecycle/stale" labels
         || HasLabel imp "lifecycle/rotten" labels
     end.

(** The log once the two permission checks have been made. *)
Definition checked (e : GenericCommentEvent) (log : list GitHubCall)
  : list GitHubCall :=
  ((log ++ [IsCollaboratorCall (Login (Owner (EventRepo e)))
              (RepoName (EventRepo e)) (Login (EventUser e))])
     ++ [GetIssueLabelsCall (Login (Owner (EventRepo e)))
           (RepoName (EventRepo e)) (Number e)])%list.

(** The close call the event asks for; none for a pull request with the
    not-planned command. *)
Definition requestedClose (imp : Imports) (e : GenericCommentEvent)
  : option GitHubCall :=
  let org := Login (Owner (EventRepo e)) in
  let repo := RepoName (EventRepo e) in
  if IsPR e then
    if MatchString imp closeNotPlannedRe (Body e) then None
    else Some (ClosePullRequestCall org repo (Number e))
  else if MatchString imp closeNotPlannedRe (Body e)
  then Some (CloseIssueAsNotPlannedCall org repo (Number e))
  else Some (CloseIssueCall org repo (Number e)).

(** What the client answers to a close call made after [log]. *)
Definition closeAnswer (gc : closeClient) (log : list GitHubCall)
    (c : GitHubCall) : option error :=
  match c with
  | CloseIssueCall o r n => CloseIssue gc log o r n
  | CloseIssueAsNotPlannedCall o r n => CloseIssueAsNotPlanned gc log o r n
  | ClosePullRequestCall o r n => ClosePullRequest gc log o r n
  | _ => None
  end.

(** The text of a response to the commenter. *)
Definition responseTo (imp : Imports) (e : GenericCommentEvent)
    (response : string) : string :=
  FormatResponseRaw imp (Body e) (HTMLURL e) (Login (EventUser e)) response.

(** ** Fixtures *)

(** A stand-in for the regular-expression engine on the two patterns of
    this file: the body, taken as a single line, is the command. *)
Definition wholeBody (pattern body : string) : bool :=
  if String.eqb pattern closeRe then String.eqb body "/close"
  else if String.eqb pattern closeNotPlannedRe
  then String.eqb body "/close not-planned"
  else false.

Definition imports0 : Imports :=
  {| MatchString := wholeBody;
     HasLabel :=
       fun label labels => existsb (fun l => String.eqb (LabelName l) label) labels;
     FormatResponseRaw :=
       fun body url user reply => "@" ++ user ++ ": " ++ reply;
     GenericCommentActionCreated := "created" |}.

(** A GitHub on which nobody is a collaborator, the issue carries the
    given labels and every call succeeds. *)
Definition github0 (labels : list Label) : closeClient :=
  {| IsCollaborator := fun _ _ _ _ => (false, None);
     CreateComment := fun _ _ _ _ _ => None;
     CloseIssue := fun _ _ _ _ => None;
     CloseIssueAsNotPlanned := fun _ _ _ _ => None;
     ClosePullRequest := fun _ _ _ _ => None;
     GetIssueLabels := fun _ _ _ _ => (labels, None) |}.

(** The same, but closing fails. *)
Definition githubDown (labels : list Label) : closeClient :=
  {| IsCollaborator := fun _ _ _ _ => (false, None);
     CreateComment := fun _ _ _ _ _ => None;
     CloseIssue := fun _ _ _ _ => Some (errorString "down");
     CloseIssueAsNotPlanned := fun _ _ _ _ => Some (errorString "down");
     ClosePullRequest := fun _ _ _ _ => Some (errorString "down");
     GetIssueLabels := fun _ _ _ _ => (labels, None) |}.

Definition event0 (body commenter : string) (pr : bool) : GenericCommentEvent :=
  {| IssueState := "open";
     Action := "created";
     Body := body;
     HTMLURL := "https://example.test/1";
     Number := 1%Z;
     EventRepo := {| Owner := {| Login := "org" |}; RepoName := "repo" |};
     EventUser := {| Login := commenter |};
     IssueAuthor := {| Login := "author" |};
     IsPR := pr |}.

End lifecycle.

(** * Package util: where the results of a job are stored *)

Module util.

(** strings.HasPrefix and strings.Contains, on the bytes of the string. *)
Definition HasPrefix (s prefix : string) : bool := String.prefix prefix s.

Fixpoint Contains (s substr : string) : bool :=
  if String.prefix substr s then true
  else
    match s with
    | EmptyString => false
    | String _ s' => Contains s' substr
    end.

(** The fields of a ProwJob the package reads. [GCSRest] stands for the
    fields of the GCS configuration other than the bucket. *)
Record GCSConfiguration := { Bucket : string; GCSRest : string }.
Record DecorationConfig := { GCSConfig : option GCSConfiguration }.
Record Refs := { Org : string; Repo : string }.
Record ProwJobSpec :=
  { Job : string;
    Cluster : string;
    SpecRefs : option Refs;
    ExtraRefs : list Refs;
    SpecDecorationConfig : option DecorationConfig }.
Record ProwJobStatus := { BuildID : string; State : string }.
Record ProwJob :=
  { Name : string; Spec : ProwJobSpec; Status : ProwJobStatus }.

(** What the package takes from outside the file: the default decoration
    of the configuration, [cfg().Plank.GuessDefaultDecorationConfig]; the
    directory computed by [gcsupload.PathsForJob] for the job spec made by
    [downwardapi.NewJobSpec]; and the rendering of the verb [%q]. *)
Record Imports :=
  { GuessDefaultDecorationConfig : string -> string -> option DecorationConfig;
    PathsForJob : GCSConfiguration -> ProwJobSpec -> string -> string -> string;
    Quote : string -> string }.

Definition gcsConfig (imp : Imports) (pj : ProwJob) : error + GCSConfiguration :=
  if String.eqb (BuildID (Status pj)) "" then
    inl (errorString "cannot get job destination for job with no BuildID")
  else
    match SpecDecorationConfig (Spec pj) with
    | Some {| GCSConfig := Some gc |} => inr gc
    | _ =>
        let repo :=
          match SpecRefs (Spec pj) with
          | Some refs => Org refs ++ "/" ++ Repo refs
          | None =>
              match ExtraRefs (Spec pj) with
              | r :: _ => Org r ++ "/" ++ Repo r
              | [] => ""
              end
          end in
        match GuessDefaultDecorationConfig imp repo (Cluster (Spec pj)) with
        | Some {| GCSConfig := Some gc |} => inr gc
        | _ =>
            inl (errorString
                   ("couldn't figure out a GCS config for "
                      ++ Quote imp (Job (Spec pj))))
        end
    end.

(** Returns bucket, directory and error. *)
Definition GetJobDestination (imp : Imports) (pj : ProwJob)
  : string * string * option error :=
  match gcsConfig imp pj with
  | inl err => ("", "", Some err)
  | inr gc =>
      (Bucket gc,
       PathsForJob imp gc (Spec pj) (BuildID (Status pj)) (Name pj),
       None)
  end.

Definition IsGCSDestination (imp : Imports) (pj : ProwJob) : bool :=
  match gcsConfig imp pj with
  | inl _ => false
  | inr gc =>
      if String.eqb (Bucket gc) "" then false
      else if HasPrefix (Bucket gc) "gs://" then true
      else negb (Contains (Bucket gc) "://")
  end.

(** ** Fixtures *)

Definition noDefaults : Imports :=
  {| GuessDefaultDecorationConfig := fun _ _ => None;
     PathsForJob := fun gc spec build name => "logs/" ++ Job spec ++ "/" ++ build;
     Quote := fun s => s |}.

Definition jobWithBucket (build bucket : string) : ProwJob :=
  {| Name := "pj-1";
     Spec :=
       {| Job := "unit"; Cluster := "default"; SpecRefs := None;
          ExtraRefs := [];
          SpecDecorationConfig :=
            Some {| GCSConfig := Some {| Bucket := bucket; GCSRest := "" |} |} |};
     Status := {| BuildID := build; State := "success" |} |}.

End util.

(** * Properties *)

Local Open Scope list_scope.

(** ** Resume tokens *)

Example base64_three_bytes : base64.EncodeToString "Man" = "TWFu".
Proof. reflexivity. Qed.

Example base64_padding :
  base64.EncodeToString "Ma" = "TWE=" /\ base64.EncodeToString "M" = "TQ==".
Proof. split; reflexivity. Qed.

(** Every call of [resumeToken] draws one UUID and leaves the log alone. *)
Lemma resumeToken_draws (world : World) :
  fst (resumeToken world) =
    base64.EncodeToString (uuid_New world (drawn world)) /\
  calls (snd (resumeToken world)) = calls world /\
  drawn (snd (resumeToken world)) = S (drawn world).
Proof. repeat split. Qed.

(** ** Error classification *)

Lemma permanentCode_spec (c : codes.Code) :
  permanentCode c = true <-> In c permanentCodes.
Proof.
  unfold permanentCode, permanentCodes. split.
  - repeat match goal with
           | |- context [N.eqb ?a ?b] =>
               destruct (N.eqb_spec a b); [subst; simpl; tauto|]
           end.
    discriminate.
  - simpl. intros [H|[H|[H|[H|[H|[H|[]]]]]]]; subst; reflexivity.
Qed.

Lemma IsPermanentError_code (err : option error) :
  IsPermanentError err = permanentCode (codeOf err).
Proof.
  unfold IsPermanentError, codeOf.
  destruct (status.FromError err); reflexivity.
Qed.

(** C2. [IsPermanentError] is a total function of the status code of the
    error alone: it answers [true] exactly for AlreadyExists, NotFound,
    InvalidArgument, FailedPrecondition, Unimplemented and
    PermissionDenied, and [false] for every other code; a nil error (no
    status, read as OK) and an error that carries no status (read as
    Unknown) are both transient. *)
Theorem IsPermanentError_classification :
  (forall err : option error,
      IsPermanentError err = existsb (N.eqb (codeOf err)) permanentCodes) /\
  (forall (c : codes.Code) (msg : string),
      codeOf (Some (statusError c msg)) = c) /\
  (forall (c : codes.Code) (msg : string),
      IsPermanentError (Some (statusError c msg)) = true
      <-> In c permanentCodes) /\
  IsPermanentError None = false /\
  (forall msg : string,
      codeOf (Some (errorString msg)) = codes.Unknown /\
      IsPermanentError (Some (errorString msg)) = false) /\
  (forall (format : string) (v : UploadRequest),
      IsPermanentError (Some (Errorf format v)) = false).
Proof.
  repeat split; try reflexivity.
  - intros err. rewrite IsPermanentError_code.
    generalize (codeOf err). intros c.
    unfold permanentCode, permanentCodes. simpl.
    repeat (destruct (N.eqb c _); [reflexivity|]). reflexivity.
  - rewrite IsPermanentError_code. apply permanentCode_spec.
  - rewrite IsPermanentError_code. apply permanentCode_spec.
Qed.

(** ** The flush *)

Ltac destruct_machine m :=
  let w := fresh "w" in
  let world := fresh "world" in
  destruct m as [w world].

(** The world after [n] more UploadBatch calls with the request [b]. *)
Lemma attempts_world (b : UploadBatchRequest) (n : nat) :
  forall w world,
    snd (attempts b n (w, world)) =
    {| calls := calls world ++ repeat (CallUploadBatch b) n;
       uuid_New := uuid_New world;
       drawn := drawn world |}.
Proof.
  induction n as [|n IH]; intros w world; simpl attempts.
  - simpl. rewrite app_nil_r. destruct world; reflexivity.
  - unfold flushAttempt.
    destruct (UploadBatch (w_client w) (calls world) b) as [e|];
      [destruct (IsPermanentError (Some e))|]; simpl fst;
      rewrite IH; simpl; rewrite <- app_assoc; reflexivity.
Qed.

Lemma attempts_calls (b : UploadBatchRequest) (n : nat) (m : Machine) :
  calls (snd (attempts b n m)) =
  calls (snd m) ++ repeat (CallUploadBatch b) n.
Proof. destruct_machine m. rewrite attempts_world. reflexivity. Qed.

(** The three ways one attempt can end. *)
Lemma flushAttempt_cases (b : UploadBatchRequest) (w : writer) (world : World) :
  let world' := record (CallUploadBatch b) world in
  (exists e, flushAttempt b (w, world) = ((w, world'), (false, Some e))) \/
  flushAttempt b (w, world) = ((w, world'), (false, None)) \/
  flushAttempt b (w, world) = ((set_updates [] w, world'), (true, None)).
Proof.
  unfold flushAttempt.
  destruct (UploadBatch (w_client w) (calls world) b) as [e|];
    [destruct (IsPermanentError (Some e))|]; simpl; eauto.
Qed.

(** What the retry loop around [flushAttempt] does, for any service and
    context: some number of attempts, all with the same request; the buffer
    is emptied when the loop ends without error and untouched otherwise. *)
Lemma flush_loop (ctx : Context) (b : UploadBatchRequest) (steps : nat) :
  forall (w : writer) (world : World),
  exists n,
    n <= steps /\
    fst (wait.ExponentialBackoffWithContext (ctxErr ctx) steps
           (flushAttempt b) (w, world)) = attempts b n (w, world) /\
    fst (attempts b n (w, world)) =
      match snd (wait.ExponentialBackoffWithContext (ctxErr ctx) steps
                   (flushAttempt b) (w, world)) with
      | None => set_updates [] w
      | Some _ => w
      end.
Proof.
  induction steps as [|steps IH]; intros w world.
  - exists 0. simpl. auto.
  - cbn [wait.ExponentialBackoffWithContext].
    destruct (ctxErr ctx (w, world)) as [e|].
    + exists 0. simpl. split; [lia|auto].
    + destruct (flushAttempt_cases b w world) as [[e H]|[H|H]].
      * exists 1. cbn [attempts]. rewrite H. simpl. split; [lia|auto].
      * destruct (IH w (record (CallUploadBatch b) world))
          as (n & Hn & Hrun & Hw).
        exists (S n). cbn [attempts]. rewrite H. simpl fst.
        split; [lia|]. split; assumption.
      * exists 1. cbn [attempts]. rewrite H. simpl. split; [lia|auto].
Qed.

(** The loop makes at least one attempt when the context is live. *)
Lemma flush_loop_live (ctx : Context) (b : UploadBatchRequest) (steps : nat)
    (w : writer) (world : World) :
  ctx (calls world) = context.Live ->
  exists n,
    1 <= n /\
    fst (wait.ExponentialBackoffWithContext (ctxErr ctx) (S steps)
           (flushAttempt b) (w, world)) = attempts b n (w, world).
Proof.
  intros Hlive. cbn [wait.ExponentialBackoffWithContext].
  unfold ctxErr at 1. simpl snd. rewrite Hlive. simpl context.Err.
  destruct (flushAttempt_cases b w world) as [[e H]|[H|H]].
  - exists 1. cbn [attempts]. rewrite H. simpl. split; [lia|reflexivity].
  - destruct (flush_loop ctx b steps w (record (CallUploadBatch b) world))
      as (n & _ & Hrun & _).
    exists (S n). cbn [attempts]. rewrite H. simpl fst.
    split; [lia|assumption].
  - exists 1. cbn [attempts]. rewrite H. simpl. split; [lia|reflexivity].
Qed.

Lemma flushUpdates_unfold (ctx : Context) (w : writer) (world : World) :
  flushUpdates ctx (w, world) =
  wait.ExponentialBackoffWithContext (ctxErr ctx) (wait.Steps rpcRetryBackoff)
    (flushAttempt (flushRequest w world))
    (set_resumeToken (NextResumeToken (flushRequest w world)) w,
     snd (resumeToken world)).
Proof. reflexivity. Qed.

(** The machine a flush leaves behind. *)
Lemma flushUpdates_spec (ctx : Context) (w : writer) (world : World) :
  let b := flushRequest w world in
  let m' := fst (flushUpdates ctx (w, world)) in
  let err := snd (flushUpdates ctx (w, world)) in
  exists n,
    n <= wait.Steps rpcRetryBackoff /\
    calls (snd m') = calls world ++ repeat (CallUploadBatch b) n /\
    uuid_New (snd m') = uuid_New world /\
    drawn (snd m') = S (drawn world) /\
    fst m' =
      match err with
      | None => set_updates [] (set_resumeToken (NextResumeToken b) w)
      | Some _ => set_resumeToken (NextResumeToken b) w
      end.
Proof.
  intros b m' err. subst m' err. rewrite flushUpdates_unfold. fold b.
  destruct (flush_loop ctx b (wait.Steps rpcRetryBackoff)
              (set_resumeToken (NextResumeToken b) w) (snd (resumeToken world)))
    as (n & Hn & Hrun & Hw).
  exists n. split; [exact Hn|].
  rewrite Hrun, <- Hw, attempts_world. simpl. auto.
Qed.

(** A retry loop whose first [k] attempts fail with a transient status and
    whose next attempt succeeds, all within the step budget and with the
    context live. *)
Lemma flush_loop_transient (ctx : Context) (b : UploadBatchRequest) (k : nat) :
  forall (steps : nat) (w : writer) (world : World),
    k < steps ->
    (forall i, i <= k ->
       ctx (calls world ++ repeat (CallUploadBatch b) i) = context.Live) ->
    (forall i, i < k ->
       exists e,
         UploadBatch (w_client w)
           (calls world ++ repeat (CallUploadBatch b) i) b = Some e /\
         IsPermanentError (Some e) = false) ->
    UploadBatch (w_client w)
      (calls world ++ repeat (CallUploadBatch b) k) b = None ->
    wait.ExponentialBackoffWithContext (ctxErr ctx) steps (flushAttempt b)
      (w, world) = (attempts b (S k) (w, world), None) /\
    (forall i, i <= k -> fst (attempts b i (w, world)) = w) /\
    fst (attempts b (S k) (w, world)) = set_updates [] w.
Proof.
  induction k as [|k IH]; intros steps w world Hk Hlive Hfail Hok;
    (destruct steps as [|steps]; [lia|]);
    cbn [wait.ExponentialBackoffWithContext attempts];
    unfold ctxErr at 1; simpl snd;
    generalize (Hlive 0 (Nat.le_0_l _)); simpl repeat; rewrite app_nil_r;
    intros ->; simpl context.Err.
  - simpl in Hok. rewrite app_nil_r in Hok.
    unfold flushAttempt. rewrite Hok. simpl.
    repeat split. intros i Hi. replace i with 0 by lia. reflexivity.
  - destruct (Hfail 0 ltac:(lia)) as (e & He & Hperm).
    simpl in He. rewrite app_nil_r in He.
    assert (Hatt : flushAttempt b (w, world) =
                   ((w, record (CallUploadBatch b) world), (false, None))).
    { unfold flushAttempt. rewrite He, Hperm. reflexivity. }
    rewrite Hatt. simpl fst.
    destruct (IH steps w (record (CallUploadBatch b) world)) as (Hrun & Hkeep & Hclr).
    + lia.
    + intros i Hi. simpl calls. rewrite <- app_assoc. apply (Hlive (S i)). lia.
    + intros i Hi. simpl calls. rewrite <- app_assoc. apply (Hfail (S i)). lia.
    + simpl calls. rewrite <- app_assoc. exact Hok.
    + cbn [attempts] in Hrun, Hclr. rewrite Hrun.
      repeat split; try assumption.
      intros [|i] Hi; [reflexivity|].
      cbn [attempts]. rewrite Hatt. simpl fst. apply Hkeep. lia.
Qed.

(** C1, as amended. For every flush, the request carries the writer's
    current token and a next token drawn once, and the writer's current
    token is that next token afterwards whether the flush succeeds or
    fails. A flush that fails leaves the buffer unchanged, so a further
    flush sends the same envelopes, with the earlier next token as current
    token; a flush that succeeds empties the buffer. The finalized latch is
    never touched. *)
Theorem flushUpdates_outcome (ctx : Context) (w : writer) (world : World) :
  let b := flushRequest w world in
  let m' := fst (flushUpdates ctx (w, world)) in
  let err := snd (flushUpdates ctx (w, world)) in
  ResumeToken b = w_resumeToken w /\
  NextResumeToken b = fst (resumeToken world) /\
  UploadRequests b = w_updates w /\
  w_resumeToken (fst m') = NextResumeToken b /\
  w_finalized (fst m') = w_finalized w /\
  match err with
  | None => w_updates (fst m') = []
  | Some _ =>
      w_updates (fst m') = w_updates w /\
      UploadRequests (flushRequest (fst m') (snd m')) = UploadRequests b /\
      ResumeToken (flushRequest (fst m') (snd m')) = NextResumeToken b
  end.
Proof.
  intros b m' err.
  destruct (flushUpdates_spec ctx w world) as (n & _ & _ & _ & _ & Hw).
  fold b m' err in Hw.
  repeat (split; [reflexivity|]).
  rewrite Hw. destruct err; simpl; auto.
Qed.

(** C1, counterexample. The hundredth write of a batch against a service
    that rejects the batch with a permanent status: the write fails, and
    the writer's current token is no longer the one it held before. *)
Lemma failed_flush_moves_token :
  exists m' e,
    WriteTarget background (Some someTarget)
      (almostFull rejectingClient, world0) = Return (m', Some e) /\
    IsPermanentError (Some e) = true /\
    w_updates (fst m') =
      w_updates (almostFull rejectingClient) ++ [someTargetEnvelope] /\
    w_resumeToken (fst m') <> w_resumeToken (almostFull rejectingClient).
Proof.
  eexists. eexists. split; [vm_compute; reflexivity|].
  split; [reflexivity|]. split; [reflexivity|].
  intros H. apply String.eqb_eq in H. vm_compute in H. discriminate.
Qed.

(** C8. One flush whose first [k] calls fail with a transient status and
    whose next call succeeds, within the step budget and with the context
    live: the flush returns nil after exactly [k + 1] calls, every one of
    them with the same request (same envelopes, same next token, drawn
    once); the buffer is intact after each failed attempt and empty after
    the successful one. *)
Theorem flush_retried_with_same_request
    (ctx : Context) (w : writer) (world : World) (k : nat) :
  let b := flushRequest w world in
  let m0 := (set_resumeToken (NextResumeToken b) w, snd (resumeToken world)) in
  k < wait.Steps rpcRetryBackoff ->
  (forall i, i <= k ->
     ctx (calls world ++ repeat (CallUploadBatch b) i) = context.Live) ->
  (forall i, i < k ->
     exists e,
       UploadBatch (w_client w)
         (calls world ++ repeat (CallUploadBatch b) i) b = Some e /\
       IsPermanentError (Some e) = false) ->
  UploadBatch (w_client w)
    (calls world ++ repeat (CallUploadBatch b) k) b = None ->
  flushUpdates ctx (w, world) = (attempts b (S k) m0, None) /\
  (forall i, i <= S k ->
     calls (snd (attempts b i m0)) =
     calls world ++ repeat (CallUploadBatch b) i) /\
  drawn (snd (attempts b (S k) m0)) = S (drawn world) /\
  UploadRequests b = w_updates w /\
  (forall i, i <= k -> w_updates (fst (attempts b i m0)) = w_updates w) /\
  w_updates (fst (attempts b (S k) m0)) = [].
Proof.
  intros b m0 Hk Hlive Hfail Hok.
  destruct (flush_loop_transient ctx b k (wait.Steps rpcRetryBackoff)
              (set_resumeToken (NextResumeToken b) w) (snd (resumeToken world))
              Hk Hlive Hfail Hok) as (Hrun & Hkeep & Hclr).
  fold m0 in Hrun, Hkeep, Hclr.
  split; [rewrite flushUpdates_unfold; exact Hrun|].
  split; [intros i _; unfold m0; rewrite attempts_world; reflexivity|].
  split; [unfold m0; rewrite attempts_world; reflexivity|].
  split; [reflexivity|].
  split; [intros i Hi; rewrite (Hkeep i Hi); reflexivity|].
  rewrite Hclr. reflexivity.
Qed.

(** C8 at a service that is unavailable twice and then accepts. *)
Lemma flush_retried_with_same_request_witness :
  snd (flushUpdates background (almostFull flakyClient, world0)) = None /\
  batches (calls (snd (fst
    (flushUpdates background (almostFull flakyClient, world0))))) =
    repeat (flushRequest (almostFull flakyClient) world0) 3 /\
  w_updates (fst (fst
    (flushUpdates background (almostFull flakyClient, world0)))) = [].
Proof.
  destruct (flush_retried_with_same_request background
              (almostFull flakyClient) world0 2)
    as (Hrun & Hcalls & _ & _ & _ & Hclr).
  - simpl. lia.
  - reflexivity.
  - intros i Hi. exists (statusError codes.Unavailable "try again").
    destruct i as [|[|i]]; [split; reflexivity..|lia].
  - reflexivity.
  - rewrite Hrun. cbn [fst snd].
    split; [reflexivity|].
    split; [rewrite (Hcalls 3 (Nat.le_refl 3)); reflexivity|exact Hclr].
Defined.

(** ** Appending *)

Lemma addUploadRequest_finalized (ctx : Context) (r : UploadRequest)
    (w : writer) (world : World) :
  w_finalized w = true ->
  addUploadRequest ctx r (w, world) = ((w, world), afterFinalized r).
Proof. intros H. unfold addUploadRequest. rewrite H. reflexivity. Qed.

(** A non-finalize append either stays in the buffer or hands the buffer,
    with the new envelope at its end, to [flushUpdates]; the test is on the
    length after the append. *)
Lemma addUploadRequest_threshold (ctx : Context) (r : UploadRequest)
    (w : writer) (world : World) :
  w_finalized w = false ->
  isFinalize r = false ->
  addUploadRequest ctx r (w, world) =
  if List.length (w_updates w) + 1 <? batchSize
  then ((set_updates (w_updates w ++ [r]) w, world), None)
  else flushUpdates ctx (set_updates (w_updates w ++ [r]) w, world).
Proof.
  intros Hfin Hr. unfold addUploadRequest. rewrite Hfin, Hr.
  cbn [set_updates w_finalized w_updates]. rewrite Hfin.
  rewrite length_app. reflexivity.
Qed.

Lemma addUploadRequest_finalize (ctx : Context) (r : UploadRequest)
    (w : writer) (world : World) :
  w_finalized w = false ->
  isFinalize r = true ->
  addUploadRequest ctx r (w, world) =
  flushUpdates ctx
    (set_updates (w_updates w ++ [r]) (set_finalized true w), world).
Proof.
  intros Hfin Hr. unfold addUploadRequest. rewrite Hfin, Hr. reflexivity.
Qed.

(** Every public operation is its envelope handed to [addUploadRequest]. *)
Lemma perform_envelope (ctx : Context) (op : Write) (m : Machine) :
  perform ctx op m = andThen ctx (envelope (fst m) op) m.
Proof. destruct op; reflexivity. Qed.

Lemma envelope_isFinalize (w : writer) (op : Write) (r : UploadRequest) :
  envelope w op = Return r -> isFinalize r = isFinalizeWrite op.
Proof.
  destruct op as [[c|]|[t|]|[ct|]|[a|]|]; simpl; try discriminate;
    try (intros H; injection H as <-; reflexivity).
  destruct (cfg_Id c); [|discriminate].
  intros H; injection H as <-; reflexivity.
Qed.

Lemma perform_finalized (ctx : Context) (op : Write) (m : Machine)
    (r : UploadRequest) :
  w_finalized (fst m) = true ->
  envelope (fst m) op = Return r ->
  perform ctx op m = Return (m, afterFinalized r).
Proof.
  destruct_machine m. simpl fst. intros Hfin Henv.
  rewrite perform_envelope. simpl fst. rewrite Henv. cbn [andThen].
  rewrite addUploadRequest_finalized by exact Hfin. reflexivity.
Qed.

(** C5. On a writer whose finalized latch is set, every public operation
    whose envelope can be built (WriteConfiguration, WriteTarget,
    WriteConfiguredTarget, WriteAction, and a further Finalize) returns
    the local error at once and leaves the whole machine as it was: no
    call is added to the log, no token is drawn, and the buffer, the
    current token and the latch are unchanged. *)
Theorem write_after_finalized_rejected
    (ctx : Context) (op : Write) (w : writer) (world : World)
    (r : UploadRequest) :
  w_finalized w = true ->
  envelope w op = Return r ->
  perform ctx op (w, world) = Return ((w, world), afterFinalized r).
Proof. intros Hfin Henv. apply perform_finalized; assumption. Qed.

(** C5 at a finalized writer with a non-empty buffer, for each of the five
    operations. *)
Lemma write_after_finalized_rejected_witness :
  let w := set_finalized true (almostFull acceptingClient) in
  Forall
    (fun op =>
       exists r,
         perform background op (w, world0) =
         Return ((w, world0), afterFinalized r))
    [ WConfiguration (Some someConfiguration); WTarget (Some someTarget);
      WConfiguredTarget
        (Some {| ct_Name := ""; ct_Id := None; ct_Body := "" |});
      WAction (Some {| act_Name := ""; act_Id := None; act_Body := "" |});
      WFinalize ].
Proof.
  intros w.
  repeat (apply Forall_cons;
          [eexists;
           apply (write_after_finalized_rejected background _ w world0);
           reflexivity|]).
  apply Forall_nil.
Defined.

(** C4. [Finalize] on a writer that is not finalized is a flush from the
    machine in which the latch is already set and the finalize envelope is
    the last of the buffer. Whatever that flush returns, every call it
    makes carries that buffer (at least one call is made when the context
    is live), the latch is set afterwards, and every later operation is
    refused with the machine unchanged. *)
Theorem Finalize_sets_latch_then_flushes
    (ctx : Context) (w : writer) (world : World) :
  w_finalized w = false ->
  let w1 :=
    set_updates (w_updates w ++ [finalizeRequest w]) (set_finalized true w) in
  let b := flushRequest w1 world in
  let m' := fst (Finalize ctx (w, world)) in
  Finalize ctx (w, world) = flushUpdates ctx (w1, world) /\
  w_finalized w1 = true /\
  UploadRequests b = w_updates w ++ [finalizeRequest w] /\
  (exists n,
      calls (snd m') = calls world ++ repeat (CallUploadBatch b) n /\
      match ctx (calls world) with
      | context.Live => 1 <= n
      | _ => n = 0
      end) /\
  w_finalized (fst m') = true /\
  (forall (ctx' : Context) (op : Write) (r : UploadRequest),
      envelope (fst m') op = Return r ->
      perform ctx' op m' = Return (m', afterFinalized r)).
Proof.
  intros Hfin w1 b m'.
  assert (Hrun : Finalize ctx (w, world) = flushUpdates ctx (w1, world)).
  { unfold Finalize. simpl fst.
    apply addUploadRequest_finalize; [exact Hfin|reflexivity]. }
  assert (Hlatch : w_finalized (fst m') = true).
  { subst m'. rewrite Hrun.
    destruct (flushUpdates_spec ctx w1 world) as (n & _ & _ & _ & _ & H).
    rewrite H. destruct (snd (flushUpdates ctx (w1, world))); reflexivity. }
  split; [exact Hrun|]. split; [reflexivity|]. split; [reflexivity|].
  split; [|split; [exact Hlatch|]].
  - subst m'. rewrite Hrun, flushUpdates_unfold. fold b.
    destruct (ctx (calls world)) eqn:Hctx.
    + destruct (flush_loop_live ctx b 7
                  (set_resumeToken (NextResumeToken b) w1)
                  (snd (resumeToken world)) Hctx) as (n & Hn & Hrun').
      exists n. change (wait.Steps rpcRetryBackoff) with 8.
      rewrite Hrun', attempts_calls. auto.
    + exists 0. change (wait.Steps rpcRetryBackoff) with 8.
      cbn [wait.ExponentialBackoffWithContext]. unfold ctxErr.
      simpl. rewrite Hctx. simpl. rewrite app_nil_r. auto.
    + exists 0. change (wait.Steps rpcRetryBackoff) with 8.
      cbn [wait.ExponentialBackoffWithContext]. unfold ctxErr.
      simpl. rewrite Hctx. simpl. rewrite app_nil_r. auto.
  - intros ctx' op r Henv. apply perform_finalized; assumption.
Qed.

(** C4 at a service that rejects the finalize batch: the flush fails and
    the latch is set all the same. *)
Lemma Finalize_sets_latch_then_flushes_witness :
  w_finalized (freshWriter rejectingClient) = false /\
  snd (Finalize background (freshWriter rejectingClient, world0)) =
    Some (statusError codes.InvalidArgument "rejected") /\
  w_finalized
    (fst (fst (Finalize background (freshWriter rejectingClient, world0)))) =
    true.
Proof.
  split; [reflexivity|]. split; [reflexivity|].
  exact (proj1 (proj2 (proj2 (proj2 (proj2
    (Finalize_sets_latch_then_flushes background
       (freshWriter rejectingClient) world0 eq_refl)))))).
Defined.

(** ** Building envelopes *)

(** C10. [WriteConfiguration] panics on a configuration whose [Id] is nil,
    whatever the writer; [WriteTarget], [WriteConfiguredTarget] and
    [WriteAction] read a nil [Id] through the getters, build an envelope
    with empty identifiers, and go on to [addUploadRequest]. *)
Theorem nil_Id_panics_only_in_WriteConfiguration :
  (forall (ctx : Context) (name body : string) (m : Machine),
      WriteConfiguration ctx
        (Some {| cfg_Name := name; cfg_Id := None; cfg_Body := body |}) m =
      Panic) /\
  (forall (ctx : Context) (name body : string) (m : Machine),
      WriteTarget ctx
        (Some {| tgt_Name := name; tgt_Id := None; tgt_Body := body |}) m =
      Return
        (addUploadRequest ctx
           {| Id := Some {| TargetId := ""; ConfigurationId := "";
                            ActionId := "" |};
              UploadOperation := UploadRequest_CREATE;
              Resource :=
                UploadRequest_Target
                  {| tgt_Name := name; tgt_Id := None; tgt_Body := body |} |}
           m)) /\
  (forall (ctx : Context) (name body : string) (m : Machine),
      WriteConfiguredTarget ctx
        (Some {| ct_Name := name; ct_Id := None; ct_Body := body |}) m =
      Return
        (addUploadRequest ctx
           {| Id := Some {| TargetId := ""; ConfigurationId := "";
                            ActionId := "" |};
              UploadOperation := UploadRequest_CREATE;
              Resource :=
                UploadRequest_ConfiguredTarget
                  {| ct_Name := name; ct_Id := None; ct_Body := body |} |}
           m)) /\
  (forall (ctx : Context) (name body : string) (m : Machine),
      WriteAction ctx
        (Some {| act_Name := name; act_Id := None; act_Body := body |}) m =
      Return
        (addUploadRequest ctx
           {| Id := Some {| TargetId := ""; ConfigurationId := "";
                            ActionId := "" |};
              UploadOperation := UploadRequest_CREATE;
              Resource :=
                UploadRequest_Action
                  {| act_Name := name; act_Id := None; act_Body := body |} |}
           m)).
Proof. repeat split. Qed.

(** ** The handshake *)

Lemma IsAlreadyExistsErr_permanent (err : option error) :
  IsAlreadyExistsErr err = true -> IsPermanentError err = true.
Proof.
  unfold IsAlreadyExistsErr, IsPermanentError, permanentCode.
  destruct (status.FromError err) as [st ok]. intros ->. reflexivity.
Qed.

Lemma context_Err_transient (s : context.state) :
  IsPermanentError (context.Err s) = false.
Proof. destruct s; reflexivity. Qed.

(** [createInvocation] never changes the writer, and a permanent error it
    returns is the error of its last CreateInvocation call. *)
Lemma createInvocation_loop (ctx : Context) (inv : option Invocation)
    (steps : nat) :
  forall (w : writer) (world : World),
    let r := wait.ExponentialBackoffWithContext (ctxErr ctx) steps
               (createInvocationAttempt inv) (w, world) in
    fst (fst r) = w /\
    (IsPermanentError (snd r) = true ->
     exists log,
       CreateInvocation (w_client w) log (createInvocationRequest w inv) =
         snd r /\
       calls (snd (fst r)) =
         log ++ [CallCreateInvocation (createInvocationRequest w inv)]).
Proof.
  induction steps as [|steps IH]; intros w world; cbv zeta;
    cbn [wait.ExponentialBackoffWithContext].
  - simpl. split; [reflexivity|discriminate].
  - destruct (ctxErr ctx (w, world)) as [e|] eqn:Hctx.
    + simpl. split; [reflexivity|]. unfold ctxErr in Hctx. rewrite <- Hctx.
      rewrite context_Err_transient. discriminate.
    + unfold createInvocationAttempt.
      destruct (CreateInvocation (w_client w) (calls world)
                  (createInvocationRequest w inv)) as [e|] eqn:Hcall.
      * unfold onlyPermanentError.
        destruct (IsPermanentError (Some e)) eqn:Hperm.
        -- simpl. split; [reflexivity|]. intros _.
           exists (calls world). auto.
        -- apply IH.
      * simpl. split; [reflexivity|discriminate].
Qed.

Lemma touchInvocation_loop (ctx : Context) (steps : nat) :
  forall (w : writer) (world : World),
    fst (fst (wait.ExponentialBackoffWithContext (ctxErr ctx) steps
                touchInvocationAttempt (w, world))) = w.
Proof.
  induction steps as [|steps IH]; intros w world;
    cbn [wait.ExponentialBackoffWithContext]; [reflexivity|].
  destruct (ctxErr ctx (w, world)); [reflexivity|].
  unfold touchInvocationAttempt.
  destruct (TouchInvocation (w_client w) (calls world)
              (touchInvocationRequest w)) as [e|]; [|reflexivity].
  unfold onlyPermanentError.
  destruct (IsPermanentError (Some e)); [reflexivity|apply IH].
Qed.

(** [retrieveResumeToken] either fails and leaves the writer alone, or
    ends on a GetInvocationUploadMetadata call that succeeded and stores
    the token of that response. *)
Lemma retrieveResumeToken_loop (ctx : Context) (steps : nat) :
  forall (w : writer) (world : World),
    let r := wait.ExponentialBackoffWithContext (ctxErr ctx) steps
               retrieveResumeTokenAttempt (w, world) in
    match snd r with
    | Some _ => fst (fst r) = w
    | None =>
        exists log meta,
          GetInvocationUploadMetadata (w_client w) log
            (getInvocationUploadMetadataRequest w) = inl meta /\
          calls (snd (fst r)) =
            log ++ [CallGetInvocationUploadMetadata
                      (getInvocationUploadMetadataRequest w)] /\
          fst (fst r) = set_resumeToken (um_ResumeToken meta) w
    end.
Proof.
  induction steps as [|steps IH]; intros w world; cbv zeta;
    cbn [wait.ExponentialBackoffWithContext].
  - reflexivity.
  - destruct (ctxErr ctx (w, world)); [reflexivity|].
    unfold retrieveResumeTokenAttempt.
    destruct (GetInvocationUploadMetadata (w_client w) (calls world)
                (getInvocationUploadMetadataRequest w)) as [meta|e] eqn:Hcall.
    + simpl. exists (calls world), meta. auto.
    + unfold onlyPermanentError.
      destruct (IsPermanentError (Some e)); [reflexivity|apply IH].
Qed.

(** The writer [New] starts from, holding the token it drew. *)
Lemma New_unfold (ctx : Context) (client : ResultStoreBatchClient)
    (inv : option Invocation) (invID authToken : string) (world : World) :
  New ctx client inv invID authToken world =
  let w :=
    {| w_client := client; w_invID := invID; w_authToken := authToken;
       w_resumeToken := fst (resumeToken world); w_updates := [];
       w_finalized := false |} in
  let '((w, world), err) :=
    createInvocation ctx inv (w, snd (resumeToken world)) in
  match err with
  | None => (Some w, None, world)
  | Some _ =>
      if negb (IsAlreadyExistsErr err) then (None, err, world)
      else
        let '((w, world), touchErr) := touchInvocation ctx (w, world) in
        if IsPermanentError touchErr then (None, err, world)
        else
          let '((w, world), err) := retrieveResumeToken ctx (w, world) in
          match err with
          | Some _ => (None, err, world)
          | None => (Some w, None, world)
          end
  end.
Proof. reflexivity. Qed.

(** C7. When the context is live and the first CreateInvocation call
    succeeds, [New] returns a writer at once, after that single call; the
    writer's current token is the [InitialResumeToken] of the request, its
    buffer is empty and it is not finalized. *)
Theorem New_fresh_invocation (ctx : Context) (client : ResultStoreBatchClient)
    (inv : option Invocation) (invID authToken : string) (world : World) :
  let req :=
    {| cir_InvocationId := invID; cir_Invocation := inv;
       cir_AuthorizationToken := authToken;
       InitialResumeToken := fst (resumeToken world) |} in
  ctx (calls world) = context.Live ->
  CreateInvocation client (calls world) req = None ->
  New ctx client inv invID authToken world =
  (Some {| w_client := client; w_invID := invID; w_authToken := authToken;
           w_resumeToken := InitialResumeToken req; w_updates := [];
           w_finalized := false |},
   None,
   record (CallCreateInvocation req) (snd (resumeToken world))).
Proof.
  intros req Hlive Hok. rewrite New_unfold. cbv zeta.
  unfold createInvocation. change (wait.Steps rpcRetryBackoff) with 8.
  cbn [wait.ExponentialBackoffWithContext].
  unfold ctxErr at 1. cbn [snd resumeToken calls]. rewrite Hlive.
  cbn [context.Err]. unfold createInvocationAttempt at 1.
  unfold createInvocationRequest at 1 2.
  cbn [w_client w_invID w_authToken w_resumeToken calls].
  fold req. rewrite Hok. reflexivity.
Qed.

(** C7 at a service that accepts everything. *)
Lemma New_fresh_invocation_witness :
  exists w,
    New background acceptingClient None "inv-1" "auth-1" world0 =
    (Some w, None,
     record
       (CallCreateInvocation
          {| cir_InvocationId := "inv-1"; cir_Invocation := None;
             cir_AuthorizationToken := "auth-1";
             InitialResumeToken := fst (resumeToken world0) |})
       (snd (resumeToken world0))) /\
    w_resumeToken w = fst (resumeToken world0).
Proof.
  eexists. split.
  - apply (New_fresh_invocation background acceptingClient None
             "inv-1" "auth-1" world0); reflexivity.
  - reflexivity.
Defined.

(** C6. The creation failed with AlreadyExists, the error [e] of a
    CreateInvocation call. If the touch then ends in a permanent error,
    [New] returns [e] and no writer. If it does not, [New] goes on to
    retrieve the upload metadata: when that retrieval returns nil, [New]
    returns the writer, whose current token is the token in the response
    of the last GetInvocationUploadMetadata call; when it returns an
    error, [New] returns that error and no writer. *)
Theorem New_existing_invocation (ctx : Context)
    (client : ResultStoreBatchClient) (inv : option Invocation)
    (invID authToken : string) (world : World)
    (m1 m2 : Machine) (e : error) (touchErr : option error) :
  let w0 :=
    {| w_client := client; w_invID := invID; w_authToken := authToken;
       w_resumeToken := fst (resumeToken world); w_updates := [];
       w_finalized := false |} in
  createInvocation ctx inv (w0, snd (resumeToken world)) = (m1, Some e) ->
  IsAlreadyExistsErr (Some e) = true ->
  touchInvocation ctx m1 = (m2, touchErr) ->
  (exists log,
      CreateInvocation client log (createInvocationRequest w0 inv) = Some e) /\
  (IsPermanentError touchErr = true ->
   New ctx client inv invID authToken world = (None, Some e, snd m2)) /\
  (IsPermanentError touchErr = false ->
   let m3 := fst (retrieveResumeToken ctx m2) in
   match snd (retrieveResumeToken ctx m2) with
   | None =>
       New ctx client inv invID authToken world =
         (Some (fst m3), None, snd m3) /\
       exists log meta,
         GetInvocationUploadMetadata client log
           (getInvocationUploadMetadataRequest w0) = inl meta /\
         calls (snd m3) =
           log ++ [CallGetInvocationUploadMetadata
                     (getInvocationUploadMetadataRequest w0)] /\
         fst m3 = set_resumeToken (um_ResumeToken meta) w0
   | Some e3 =>
       New ctx client inv invID authToken world = (None, Some e3, snd m3)
   end).
Proof.
  intros w0 Hcreate Hexists Htouch.
  destruct m1 as [w1 world1]. destruct m2 as [w2 world2].
  pose proof (createInvocation_loop ctx inv (wait.Steps rpcRetryBackoff)
                w0 (snd (resumeToken world))) as [Hw1 Hlast].
  fold (createInvocation ctx inv (w0, snd (resumeToken world))) in Hw1, Hlast.
  rewrite Hcreate in Hw1, Hlast. cbn [fst snd] in Hw1, Hlast. subst w1.
  pose proof (touchInvocation_loop ctx (wait.Steps rpcRetryBackoff)
                w0 world1) as Hw2.
  fold (touchInvocation ctx (w0, world1)) in Hw2.
  rewrite Htouch in Hw2. cbn [fst] in Hw2. subst w2.
  split; [|split].
  - destruct (Hlast (IsAlreadyExistsErr_permanent _ Hexists))
      as (log & Hlog & _).
    exists log. exact Hlog.
  - intros Hperm. rewrite New_unfold. cbv zeta. fold w0.
    rewrite Hcreate, Hexists. cbn [negb]. rewrite Htouch, Hperm. reflexivity.
  - intros Hperm m3.
    pose proof (retrieveResumeToken_loop ctx (wait.Steps rpcRetryBackoff)
                  w0 world2) as Hget.
    fold (retrieveResumeToken ctx (w0, world2)) in Hget. cbv zeta in Hget.
    assert (Hnew : New ctx client inv invID authToken world =
                   match snd (retrieveResumeToken ctx (w0, world2)) with
                   | None => (Some (fst m3), None, snd m3)
                   | Some e3 => (None, Some e3, snd m3)
                   end).
    { rewrite New_unfold. cbv zeta. fold w0.
      rewrite Hcreate, Hexists. cbn [negb]. rewrite Htouch, Hperm.
      subst m3.
      destruct (retrieveResumeToken ctx (w0, world2)) as [[w3 world3] [e3|]];
        reflexivity. }
    destruct (snd (retrieveResumeToken ctx (w0, world2))) as [e3|].
    + exact Hnew.
    + split; [exact Hnew|exact Hget].
Qed.

(** C6 at a service where the invocation is finalized and at one where it
    is still open. *)
Lemma New_existing_invocation_witness :
  (exists world,
      New background finalizedClient None "inv-1" "auth-1" world0 =
      (None, Some (statusError codes.AlreadyExists "invocation exists"),
       world)) /\
  (exists w world,
      New background openClient None "inv-1" "auth-1" world0 =
      (Some w, None, world) /\
      w_resumeToken w = serviceToken).
Proof.
  split.
  - eexists.
    exact (proj1 (proj2
      (New_existing_invocation background finalizedClient None
         "inv-1" "auth-1" world0 _ _ _ _ eq_refl eq_refl eq_refl)) eq_refl).
  - eexists. eexists.
    refine ((fun H => conj (proj1 H) _)
      (proj2 (proj2
        (New_existing_invocation background openClient None
           "inv-1" "auth-1" world0 _ _ _ _ eq_refl eq_refl eq_refl))
         eq_refl)).
    reflexivity.
Defined.

(** ** Sequences of writes *)

Lemma batches_app (l1 l2 : list Call) :
  batches (l1 ++ l2) = batches l1 ++ batches l2.
Proof.
  induction l1 as [|c l1 IH]; [reflexivity|].
  destruct c; simpl; rewrite IH; reflexivity.
Qed.

Lemma batches_repeat (b : UploadBatchRequest) (n : nat) :
  batches (repeat (CallUploadBatch b) n) = repeat b n.
Proof. induction n as [|n IH]; simpl; [|rewrite IH]; reflexivity. Qed.

Lemma wrap_mod (n : nat) : (batchSize + n) mod batchSize = n mod batchSize.
Proof.
  replace (batchSize + n) with (n + 1 * batchSize) by lia.
  apply Nat.Div0.mod_add.
Qed.

Lemma wrap_div (n : nat) : (batchSize + n) / batchSize = S (n / batchSize).
Proof.
  replace (batchSize + n) with (n + 1 * batchSize) by lia.
  rewrite Nat.div_add by discriminate. lia.
Qed.

(** One non-finalize operation on a writer that is not finalized. *)
Lemma perform_nonfinal (ctx : Context) (op : Write) (w : writer)
    (world : World) (m' : Machine) (e : option error) :
  w_finalized w = false ->
  isFinalizeWrite op = false ->
  perform ctx op (w, world) = Return (m', e) ->
  exists r,
    envelope w op = Return r /\
    ((List.length (w_updates w) + 1 < batchSize /\
      m' = (set_updates (w_updates w ++ [r]) w, world) /\ e = None) \/
     (batchSize <= List.length (w_updates w) + 1 /\
      flushUpdates ctx (set_updates (w_updates w ++ [r]) w, world) = (m', e))).
Proof.
  intros Hfin Hop Hrun. rewrite perform_envelope in Hrun. simpl fst in Hrun.
  destruct (envelope w op) as [|r] eqn:Henv; [discriminate|].
  cbn [andThen] in Hrun. exists r. split; [reflexivity|].
  rewrite addUploadRequest_threshold in Hrun;
    [|exact Hfin|rewrite (envelope_isFinalize w op r Henv); exact Hop].
  destruct (Nat.ltb_spec (List.length (w_updates w) + 1) batchSize) as [Hlt|Hge].
  - left. injection Hrun as <- <-. auto.
  - right. injection Hrun as Hrun. split; [exact Hge|exact Hrun].
Qed.

(** Without any assumption on the service: the latch stays clear and every
    batch sent holds at least [batchSize] envelopes. *)
Lemma performAll_batches_ge (ctx : Context) (ops : list Write) :
  forall (w : writer) (world : World) (m' : Machine)
         (errs : list (option error)),
    w_finalized w = false ->
    Forall (fun op => isFinalizeWrite op = false) ops ->
    performAll ctx ops (w, world) = Return (m', errs) ->
    w_finalized (fst m') = false /\
    exists bs,
      batches (calls (snd m')) = batches (calls world) ++ bs /\
      Forall (fun b => batchSize <= List.length (UploadRequests b)) bs.
Proof.
  induction ops as [|op ops IH]; intros w world m' errs Hfin Hops Hrun.
  - injection Hrun as <- <-. split; [exact Hfin|].
    exists []. rewrite app_nil_r. auto.
  - inversion Hops as [|? ? Hop Hops']; subst.
    cbn [performAll] in Hrun.
    destruct (perform ctx op (w, world)) as [|[m1 e]] eqn:Hstep;
      [discriminate|].
    destruct (performAll ctx ops m1) as [|[m2 es]] eqn:Hrest; [discriminate|].
    injection Hrun as <- <-.
    destruct (perform_nonfinal ctx op w world m1 e Hfin Hop Hstep)
      as (r & _ & [(_ & -> & _)|(Hge & Hflush)]).
    + exact (IH (set_updates (w_updates w ++ [r]) w) world m2 es
               Hfin Hops' Hrest).
    + pose proof (flushUpdates_spec ctx (set_updates (w_updates w ++ [r]) w)
                    world) as (n & _ & Hcalls & _ & _ & Hw).
      rewrite Hflush in Hcalls, Hw. cbn [fst snd] in Hcalls, Hw.
      destruct m1 as [w1 world1]. cbn [fst snd] in Hcalls, Hw.
      assert (Hfin1 : w_finalized w1 = false).
      { rewrite Hw. destruct e; simpl; exact Hfin. }
      destruct (IH w1 world1 m2 es Hfin1 Hops' Hrest)
        as (Hfin2 & bs & Hbs & Hall).
      split; [exact Hfin2|].
      rewrite Hcalls, batches_app, batches_repeat, <- app_assoc in Hbs.
      eexists. split; [exact Hbs|].
      apply Forall_app. split; [|exact Hall].
      apply Forall_forall. intros b Hb. apply repeat_spec in Hb. subst b.
      simpl. rewrite length_app. exact Hge.
Qed.

(** When every write returns nil: the buffer stays below [batchSize], one
    flush is made each time the count of appended envelopes reaches a
    multiple of [batchSize], and every batch holds exactly [batchSize]. *)
Lemma performAll_accepted (ctx : Context) (ops : list Write) :
  forall (w : writer) (world : World) (m' : Machine)
         (errs : list (option error)),
    w_finalized w = false ->
    Forall (fun op => isFinalizeWrite op = false) ops ->
    List.length (w_updates w) < batchSize ->
    performAll ctx ops (w, world) = Return (m', errs) ->
    Forall (eq None) errs ->
    List.length (w_updates (fst m')) =
      (List.length (w_updates w) + List.length ops) mod batchSize /\
    drawn (snd m') =
      drawn world + (List.length (w_updates w) + List.length ops) / batchSize /\
    exists bs,
      batches (calls (snd m')) = batches (calls world) ++ bs /\
      Forall (fun b => List.length (UploadRequests b) = batchSize) bs.
Proof.
  induction ops as [|op ops IH]; intros w world m' errs Hfin Hops Hlen Hrun Herrs.
  - injection Hrun as <- <-. cbn [fst snd List.length].
    rewrite Nat.add_0_r, Nat.mod_small, Nat.div_small by exact Hlen.
    split; [reflexivity|]. split; [lia|].
    exists []. rewrite app_nil_r. auto.
  - inversion Hops as [|? ? Hop Hops']; subst.
    cbn [performAll] in Hrun.
    destruct (perform ctx op (w, world)) as [|[m1 e]] eqn:Hstep;
      [discriminate|].
    destruct (performAll ctx ops m1) as [|[m2 es]] eqn:Hrest; [discriminate|].
    injection Hrun as <- <-.
    inversion Herrs as [|? ? He Hes]; subst.
    destruct (perform_nonfinal ctx op w world m1 None Hfin Hop Hstep)
      as (r & _ & [(Hlt & -> & _)|(Hge & Hflush)]).
    + destruct (IH (set_updates (w_updates w ++ [r]) w) world m2 es)
        as (H1 & H2 & H3); try assumption.
      { cbn [set_updates w_updates]. rewrite length_app. exact Hlt. }
      cbn [set_updates w_updates] in H1, H2. rewrite length_app in H1, H2.
      cbn [List.length] in *.
      replace (List.length (w_updates w) + S (List.length ops))
        with (List.length (w_updates w) + 1 + List.length ops) by lia.
      auto.
    + pose proof (flushUpdates_spec ctx (set_updates (w_updates w ++ [r]) w)
                    world) as (n & _ & Hcalls & _ & Hdrawn & Hw).
      rewrite Hflush in Hcalls, Hdrawn, Hw.
      destruct m1 as [w1 world1]. cbn [fst snd] in Hcalls, Hdrawn, Hw.
      subst w1.
      assert (Hempty : 0 < batchSize) by (unfold batchSize; lia).
      match type of Hrest with
      | performAll _ _ (?w1, _) = _ =>
          destruct (IH w1 world1 m2 es Hfin Hops' Hempty Hrest Hes)
            as (H1 & H2 & bs & Hbs & Hall)
      end.
      cbn [set_updates set_resumeToken w_updates List.length] in H1, H2.
      cbn [List.length].
      replace (List.length (w_updates w) + S (List.length ops))
        with (batchSize + List.length ops) by (clear - Hlen Hge; lia).
      rewrite wrap_mod, wrap_div. split; [exact H1|].
      split; [rewrite H2, Hdrawn; simpl; lia|].
      rewrite Hcalls, batches_app, batches_repeat, <- app_assoc in Hbs.
      eexists. split; [exact Hbs|].
      apply Forall_app. split; [|exact Hall].
      apply Forall_forall. intros b Hb. apply repeat_spec in Hb. subst b.
      simpl. rewrite length_app. simpl. clear - Hlen Hge. lia.
Qed.

(** C3, as amended. After any sequence of non-finalize writes on a writer
    that started unfinalized with fewer than [batchSize] envelopes, the
    next non-finalize write stays in the buffer when the buffer is then
    still below [batchSize], and otherwise goes to [flushUpdates] with the
    buffer, the new envelope last. Every batch sent so far holds at least
    [batchSize] envelopes. If every write so far returned nil, the buffer
    is below [batchSize], one flush was made per [batchSize] envelopes
    appended, and every batch holds exactly [batchSize]. *)
Theorem append_flush_threshold
    (ctx : Context) (ops : list Write) (op : Write) (w : writer)
    (world : World) (m1 : Machine) (errs : list (option error))
    (r : UploadRequest) :
  w_finalized w = false ->
  List.length (w_updates w) < batchSize ->
  Forall (fun op => isFinalizeWrite op = false) (ops ++ [op]) ->
  performAll ctx ops (w, world) = Return (m1, errs) ->
  envelope (fst m1) op = Return r ->
  let buffer := w_updates (fst m1) ++ [r] in
  perform ctx op m1 =
    Return
      (if List.length buffer <? batchSize
       then ((set_updates buffer (fst m1), snd m1), None)
       else flushUpdates ctx (set_updates buffer (fst m1), snd m1)) /\
  (exists bs,
      batches (calls (snd m1)) = batches (calls world) ++ bs /\
      Forall (fun b => batchSize <= List.length (UploadRequests b)) bs) /\
  (Forall (eq None) errs ->
   List.length (w_updates (fst m1)) < batchSize /\
   List.length (w_updates (fst m1)) =
     (List.length (w_updates w) + List.length ops) mod batchSize /\
   drawn (snd m1) =
     drawn world + (List.length (w_updates w) + List.length ops) / batchSize /\
   exists bs,
     batches (calls (snd m1)) = batches (calls world) ++ bs /\
     Forall (fun b => List.length (UploadRequests b) = batchSize) bs).
Proof.
  intros Hfin Hlen Hops Hrun Henv buffer.
  apply Forall_app in Hops. destruct Hops as [Hops Hop].
  inversion Hop as [|? ? Hop' _]; subst.
  destruct (performAll_batches_ge ctx ops w world m1 errs Hfin Hops Hrun)
    as (Hfin1 & Hge).
  split; [|split; [exact Hge|]].
  - destruct m1 as [w1 world1]. cbn [fst snd] in *.
    rewrite perform_envelope. cbn [fst]. rewrite Henv. cbn [andThen].
    rewrite addUploadRequest_threshold;
      [|exact Hfin1|rewrite (envelope_isFinalize w1 op r Henv); exact Hop'].
    subst buffer. rewrite length_app. reflexivity.
  - intros Herrs.
    destruct (performAll_accepted ctx ops w world m1 errs
                Hfin Hops Hlen Hrun Herrs) as (H1 & H2 & H3).
    split; [|auto].
    rewrite H1. apply Nat.mod_upper_bound. discriminate.
Qed.

(** C3 at the hundredth write of a first batch on an accepting service. *)
Lemma append_flush_threshold_witness :
  performAll background (repeat (WTarget (Some someTarget)) 99)
    (freshWriter acceptingClient, world0) =
    Return ((almostFull acceptingClient, world0), repeat None 99) /\
  perform background (WTarget (Some someTarget))
    (almostFull acceptingClient, world0) =
    Return
      (flushUpdates background
         (set_updates
            (w_updates (almostFull acceptingClient) ++ [someTargetEnvelope])
            (almostFull acceptingClient),
          world0)) /\
  List.length (w_updates (almostFull acceptingClient)) = 99.
Proof.
  assert (Hrun : performAll background (repeat (WTarget (Some someTarget)) 99)
                   (freshWriter acceptingClient, world0) =
                 Return ((almostFull acceptingClient, world0), repeat None 99))
    by (vm_compute; reflexivity).
  split; [exact Hrun|]. split; [|reflexivity].
  refine (proj1
    (append_flush_threshold background (repeat (WTarget (Some someTarget)) 99)
       (WTarget (Some someTarget)) (freshWriter acceptingClient) world0
       (almostFull acceptingClient, world0) (repeat None 99)
       someTargetEnvelope eq_refl _ _ Hrun eq_refl)).
  - unfold batchSize. simpl. lia.
  - apply Forall_forall. intros x Hx.
    apply in_app_or in Hx. destruct Hx as [Hx|[<-|[]]]; [|reflexivity].
    apply repeat_spec in Hx. subst x. reflexivity.
Defined.

(** C3, counterexample. 101 target writes against a service that rejects
    every batch: the flush of the hundredth write fails and keeps the
    buffer, so the next write sends a batch of 101 envelopes. *)
Lemma batch_exceeds_batchSize_after_failed_flush :
  exists m' errs,
    performAll background (repeat (WTarget (Some someTarget)) 101)
      (freshWriter rejectingClient, world0) = Return (m', errs) /\
    map (fun b => List.length (UploadRequests b)) (batches (calls (snd m'))) =
      [100; 101] /\
    List.length (w_updates (fst m')) = 101.
Proof.
  eexists. eexists. split; [vm_compute; reflexivity|].
  split; vm_compute; reflexivity.
Qed.

(** ** A whole upload against an accepting service *)

Lemma performAll_app (ctx : Context) (ops1 ops2 : list Write) :
  forall m : Machine,
    performAll ctx (ops1 ++ ops2) m =
    match performAll ctx ops1 m with
    | Panic => Panic
    | Return (m1, es1) =>
        match performAll ctx ops2 m1 with
        | Panic => Panic
        | Return (m2, es2) => Return (m2, es1 ++ es2)
        end
    end.
Proof.
  induction ops1 as [|op ops1 IH]; intros m.
  - simpl. destruct (performAll ctx ops2 m) as [|[m2 es2]]; reflexivity.
  - cbn [performAll app].
    destruct (perform ctx op m) as [|[m1 e]]; [reflexivity|].
    rewrite IH.
    destruct (performAll ctx ops1 m1) as [|[m2 es]]; [reflexivity|].
    destruct (performAll ctx ops2 m2) as [|[m3 es3]]; reflexivity.
Qed.

(** A flush whose first call is accepted. *)
Lemma flushUpdates_accepted (ctx : Context) (w : writer) (world : World) :
  ctx (calls world) = context.Live ->
  UploadBatch (w_client w) (calls world) (flushRequest w world) = None ->
  flushUpdates ctx (w, world) =
  ((set_updates [] (set_resumeToken (NextResumeToken (flushRequest w world)) w),
    record (CallUploadBatch (flushRequest w world)) (snd (resumeToken world))),
   None).
Proof.
  intros Hlive Hok. rewrite flushUpdates_unfold.
  change (wait.Steps rpcRetryBackoff) with 8.
  cbn [wait.ExponentialBackoffWithContext].
  unfold ctxErr at 1. cbn [snd resumeToken calls]. rewrite Hlive.
  cbn [context.Err]. unfold flushAttempt at 1.
  cbn [set_resumeToken w_client calls]. rewrite Hok. reflexivity.
Qed.

(** Writes that all fit below [batchSize] only grow the buffer. *)
Lemma performAll_buffered (ctx : Context) (ops : list Write) :
  forall (rs : list UploadRequest) (w : writer) (world : World),
    w_finalized w = false ->
    Forall2 (fun op r => envelope w op = Return r /\ isFinalizeWrite op = false)
      ops rs ->
    List.length (w_updates w) + List.length ops < batchSize ->
    performAll ctx ops (w, world) =
    Return ((set_updates (w_updates w ++ rs) w, world),
            repeat None (List.length ops)).
Proof.
  induction ops as [|op ops IH]; intros rs w world Hfin Henv Hlen.
  - inversion Henv; subst. simpl. rewrite app_nil_r.
    destruct w; reflexivity.
  - inversion Henv as [|? r ? rs' [Hr Hop] Hrest]; subst.
    cbn [performAll]. rewrite perform_envelope. cbn [fst]. rewrite Hr.
    cbn [andThen].
    rewrite addUploadRequest_threshold;
      [|exact Hfin|rewrite (envelope_isFinalize w op r Hr); exact Hop].
    cbn [List.length] in Hlen.
    destruct (Nat.ltb_spec (List.length (w_updates w) + 1) batchSize);
      [|lia].
    rewrite (IH rs' (set_updates (w_updates w ++ [r]) w) world).
    + cbn [set_updates w_updates w_client w_invID w_authToken w_resumeToken
             w_finalized].
      rewrite <- app_assoc. reflexivity.
    + exact Hfin.
    + eapply Forall2_impl; [|exact Hrest].
      intros a b [Ha Hb]. split; [|exact Hb].
      destruct a; exact Ha.
    + cbn [set_updates w_updates]. rewrite length_app. simpl. lia.
Qed.

(** The envelopes of configurations that carry an [Id]. *)
Lemma configuration_envelopes (w : writer) (cs : list Configuration) :
  Forall (fun c => cfg_Id c <> None) cs ->
  exists rs,
    Forall2 (fun c r => createConfigurationUploadRequest (Some c) = Return r)
      cs rs.
Proof.
  induction 1 as [|c cs Hc _ [rs IH]].
  - exists []. constructor.
  - destruct (cfg_Id c) as [cid|] eqn:Hid; [|congruence].
    eexists (_ :: rs). constructor; [|exact IH].
    simpl. rewrite Hid. reflexivity.
Qed.

Lemma configuration_writes (w : writer) (cs : list Configuration)
    (rs : list UploadRequest) :
  Forall2 (fun c r => createConfigurationUploadRequest (Some c) = Return r)
    cs rs ->
  Forall2 (fun op r => envelope w op = Return r /\ isFinalizeWrite op = false)
    (map (fun c => WConfiguration (Some c)) cs) rs.
Proof.
  induction 1 as [|c r cs rs Hc _ IH]; simpl; constructor; auto.
Qed.

(** A write that fills the batch, against a service that accepts it. *)
Lemma perform_fills_batch (ctx : Context) (op : Write) (r : UploadRequest)
    (w : writer) (world : World) :
  let w1 := set_updates (w_updates w ++ [r]) w in
  let b := flushRequest w1 world in
  w_finalized w = false ->
  isFinalizeWrite op = false ->
  envelope w op = Return r ->
  List.length (w_updates w) + 1 = batchSize ->
  ctx (calls world) = context.Live ->
  UploadBatch (w_client w) (calls world) b = None ->
  perform ctx op (w, world) =
  Return
    ((set_updates [] (set_resumeToken (NextResumeToken b) w1),
      record (CallUploadBatch b) (snd (resumeToken world))),
     None).
Proof.
  intros w1 b Hfin Hop Henv Hlen Hlive Hok.
  rewrite perform_envelope. cbn [fst]. rewrite Henv. cbn [andThen].
  rewrite addUploadRequest_threshold;
    [|exact Hfin|rewrite (envelope_isFinalize w op r Henv); exact Hop].
  rewrite Hlen, Nat.ltb_irrefl. f_equal.
  apply flushUpdates_accepted; assumption.
Qed.

(** [Finalize] against a service that accepts the batch. *)
Lemma Finalize_accepted (ctx : Context) (w : writer) (world : World) :
  let w1 :=
    set_updates (w_updates w ++ [finalizeRequest w]) (set_finalized true w) in
  let b := flushRequest w1 world in
  w_finalized w = false ->
  ctx (calls world) = context.Live ->
  UploadBatch (w_client w) (calls world) b = None ->
  Finalize ctx (w, world) =
  ((set_updates [] (set_resumeToken (NextResumeToken b) w1),
    record (CallUploadBatch b) (snd (resumeToken world))),
   None).
Proof.
  intros w1 b Hfin Hlive Hok. unfold Finalize. cbn [fst].
  rewrite addUploadRequest_finalize; [|exact Hfin|reflexivity].
  apply flushUpdates_accepted; assumption.
Qed.

(** C9. 150 configuration writes, each with an [Id], and then [Finalize],
    on a fresh buffer, with the context live and a service that accepts
    every batch: all 151 operations return nil and exactly two UploadBatch
    calls are made, the first with the envelopes of the first 100 writes
    and the second with those of the other 50 followed by the finalize
    envelope; every operation after that is refused. *)
Theorem hundred_fifty_writes_then_finalize
    (ctx : Context) (w : writer) (world : World) (cs : list Configuration) :
  w_updates w = [] ->
  w_finalized w = false ->
  List.length cs = 150 ->
  Forall (fun c => cfg_Id c <> None) cs ->
  (forall log, ctx log = context.Live) ->
  (forall log b, UploadBatch (w_client w) log b = None) ->
  exists (m' : Machine) (b1 b2 : UploadBatchRequest) (rs : list UploadRequest),
    performAll ctx
      (map (fun c => WConfiguration (Some c)) cs ++ [WFinalize]) (w, world) =
      Return (m', repeat None 151) /\
    Forall2 (fun c r => createConfigurationUploadRequest (Some c) = Return r)
      cs rs /\
    calls (snd m') = calls world ++ [CallUploadBatch b1; CallUploadBatch b2] /\
    UploadRequests b1 = firstn 100 rs /\
    List.length (UploadRequests b1) = 100 /\
    UploadRequests b2 = skipn 100 rs ++ [finalizeRequest w] /\
    List.length (UploadRequests b2) = 51 /\
    w_updates (fst m') = [] /\
    (forall (ctx' : Context) (op : Write) (r : UploadRequest),
        envelope (fst m') op = Return r ->
        perform ctx' op m' = Return (m', afterFinalized r)).
Proof.
  intros Hempty Hfin Hlen Hids Hlive Hok.
  destruct (configuration_envelopes w cs Hids) as [rs Hrs].
  pose proof (Forall2_length Hrs) as Hlenrs.
  (* split the writes into 99 + 1 + 50 *)
  rewrite <- (firstn_skipn 99 cs) in Hrs.
  apply Forall2_app_inv_l in Hrs.
  destruct Hrs as (rs1 & rs' & Hrs1 & Hrs' & ->).
  destruct (skipn 99 cs) as [|c cs2] eqn:Hskip.
  { apply (f_equal (@List.length _)) in Hskip.
    rewrite length_skipn, Hlen in Hskip. discriminate. }
  inversion Hrs' as [|? r ? rs2 Hr Hrs2]; subst.
  assert (Hlen1 : List.length rs1 = 99).
  { rewrite <- (Forall2_length Hrs1), length_firstn, Hlen. reflexivity. }
  assert (Hlen2 : List.length rs2 = 50).
  { rewrite <- (Forall2_length Hrs2).
    apply (f_equal (@List.length _)) in Hskip.
    rewrite length_skipn, Hlen in Hskip. simpl in Hskip. lia. }
  assert (Hcs2 : List.length cs2 = 50) by (rewrite (Forall2_length Hrs2); exact Hlen2).
  assert (Hcs1 : List.length (firstn 99 cs) = 99)
    by (rewrite (Forall2_length Hrs1); exact Hlen1).
  rewrite <- (firstn_skipn 99 cs), Hskip.
  rewrite map_app. cbn [map]. rewrite <- app_assoc. cbn [app].
  (* the first 99 writes fill the buffer *)
  rewrite performAll_app.
  rewrite (performAll_buffered ctx _ rs1 w world Hfin
             (configuration_writes w _ _ Hrs1))
    by (rewrite length_map, Hcs1, Hempty; unfold batchSize; simpl; lia).
  rewrite Hempty. cbn [app]. rewrite length_map, Hcs1.
  set (w1 := set_updates rs1 w).
  (* the hundredth write flushes *)
  cbn [performAll].
  rewrite (perform_fills_batch ctx (WConfiguration (Some c)) r w1 world
             Hfin eq_refl Hr
             ltac:(cbn [w1 set_updates w_updates]; rewrite Hlen1; reflexivity)
             (Hlive _) (Hok _ _)).
  set (b1 := flushRequest (set_updates (w_updates w1 ++ [r]) w1) world).
  set (w2 := set_updates [] _).
  set (world2 := record (CallUploadBatch b1) _).
  (* the next 50 writes fill the buffer again *)
  rewrite performAll_app.
  rewrite (performAll_buffered ctx _ rs2 w2 world2 Hfin
             (configuration_writes w2 _ _ Hrs2))
    by (rewrite length_map, Hcs2; unfold batchSize; simpl; lia).
  rewrite length_map, Hcs2. cbn [w2 set_updates w_updates app].
  set (w3 := set_updates rs2 _).
  (* the finalize flushes the rest *)
  cbn [performAll perform].
  rewrite (Finalize_accepted ctx w3 world2 Hfin (Hlive _) (Hok _ _)).
  set (b2 := flushRequest _ world2).
  eexists. exists b1, b2, (rs1 ++ r :: rs2).
  split; [reflexivity|].
  split.
  { apply Forall2_app; [exact Hrs1|]. constructor; assumption. }
  split.
  { cbn [snd record calls resumeToken world2]. rewrite <- app_assoc.
    reflexivity. }
  assert (Hfirst : firstn 100 (rs1 ++ r :: rs2) = rs1 ++ [r]).
  { replace 100 with (List.length rs1 + 1) by lia.
    rewrite firstn_app_2. reflexivity. }
  assert (Hrest : skipn 100 (rs1 ++ r :: rs2) = rs2).
  { replace (rs1 ++ r :: rs2) with ((rs1 ++ [r]) ++ rs2)
      by (rewrite <- app_assoc; reflexivity).
    replace 100 with (List.length (rs1 ++ [r]))
      by (rewrite length_app, Hlen1; reflexivity).
    rewrite skipn_app, skipn_all, Nat.sub_diag. reflexivity. }
  split; [rewrite Hfirst; reflexivity|].
  split; [cbn; rewrite length_app, Hlen1; reflexivity|].
  split; [rewrite Hrest; reflexivity|].
  split; [cbn; rewrite length_app, Hlen2; reflexivity|].
  split; [reflexivity|].
  intros ctx' op r0 Henv. apply perform_finalized; [reflexivity|exact Henv].
Qed.

(** C9 at 150 copies of one configuration on an accepting service. *)
Lemma hundred_fifty_writes_then_finalize_witness :
  exists m' : Machine,
    performAll background
      (map (fun c => WConfiguration (Some c)) (repeat someConfiguration 150)
         ++ [WFinalize])
      (freshWriter acceptingClient, world0) = Return (m', repeat None 151) /\
    map (fun b => List.length (UploadRequests b)) (batches (calls (snd m'))) =
      [100; 51].
Proof.
  destruct (hundred_fifty_writes_then_finalize background
              (freshWriter acceptingClient) world0
              (repeat someConfiguration 150))
    as (m' & b1 & b2 & rs & Hrun & _ & Hcalls & _ & H100 & _ & H51 & _).
  - reflexivity.
  - reflexivity.
  - apply repeat_length.
  - apply Forall_forall. intros c Hc. apply repeat_spec in Hc. subst c.
    discriminate.
  - reflexivity.
  - reflexivity.
  - exists m'. split; [exact Hrun|].
    rewrite Hcalls. simpl. rewrite H100, H51. reflexivity.
Defined.

(** * Further properties of the writer *)

(** ** One flush, whatever the service does *)

(** A flush makes at most [Steps] UploadBatch calls, all of them with the
    one request built before the loop, draws exactly one token, and leaves
    the identity of the writer and its latch alone. *)
Theorem flushUpdates_bounded (ctx : Context) (w : writer) (world : World) :
  exists n,
    n <= wait.Steps rpcRetryBackoff /\
    calls (snd (fst (flushUpdates ctx (w, world)))) =
      calls world ++ repeat (CallUploadBatch (flushRequest w world)) n /\
    drawn (snd (fst (flushUpdates ctx (w, world)))) = S (drawn world) /\
    w_client (fst (fst (flushUpdates ctx (w, world)))) = w_client w /\
    w_invID (fst (fst (flushUpdates ctx (w, world)))) = w_invID w /\
    w_authToken (fst (fst (flushUpdates ctx (w, world)))) = w_authToken w.
Proof.
  destruct (flushUpdates_spec ctx w world) as (n & Hn & Hcalls & _ & Hd & Hw).
  exists n. split; [exact Hn|]. split; [exact Hcalls|]. split; [exact Hd|].
  rewrite Hw.
  destruct (snd (flushUpdates ctx (w, world))); simpl; auto.
Qed.

(** Where the result of the retry loop around [flushAttempt] comes from. *)
Lemma flush_loop_result (ctx : Context) (b : UploadBatchRequest) (steps : nat) :
  forall (w : writer) (world : World),
    let r := wait.ExponentialBackoffWithContext (ctxErr ctx) steps
               (flushAttempt b) (w, world) in
    match snd r with
    | None =>
        exists log,
          calls (snd (fst r)) = log ++ [CallUploadBatch b] /\
          UploadBatch (w_client w) log b = None
    | Some e =>
        (IsPermanentError (Some e) = true /\
         exists log,
           calls (snd (fst r)) = log ++ [CallUploadBatch b] /\
           UploadBatch (w_client w) log b = Some e) \/
        (e = ErrWaitTimeout /\
         calls (snd (fst r)) = calls world ++ repeat (CallUploadBatch b) steps) \/
        (Some e = context.Err (ctx (calls (snd (fst r)))))
    end.
Proof.
  induction steps as [|steps IH]; intros w world; cbv zeta;
    cbn [wait.ExponentialBackoffWithContext].
  - simpl. right. left. rewrite app_nil_r. auto.
  - destruct (ctxErr ctx (w, world)) as [e|] eqn:Hctx.
    + simpl. right. right. symmetry. exact Hctx.
    + unfold flushAttempt.
      destruct (UploadBatch (w_client w) (calls world) b) as [e|] eqn:Hcall.
      * destruct (IsPermanentError (Some e)) eqn:Hperm.
        -- simpl. left. split; [exact Hperm|]. exists (calls world). auto.
        -- specialize (IH w (record (CallUploadBatch b) world)).
           cbv zeta in IH. unfold flushAttempt in IH.
           destruct (snd (wait.ExponentialBackoffWithContext _ steps _ _))
             as [e'|]; [|exact IH].
           destruct IH as [H|[[He Hlog]|H]]; [left; exact H| |right; right; exact H].
           right. left. split; [exact He|].
           rewrite Hlog. simpl. rewrite <- app_assoc. reflexivity.
      * simpl. exists (calls world). auto.
Qed.

(** The error of a flush is never a transient status of the service. It
    is nil after a call the service accepted; otherwise it is the permanent
    error of the last call, or [ErrWaitTimeout] after [Steps] calls, or the
    error of the context. *)
Theorem flushUpdates_error_source (ctx : Context) (w : writer) (world : World) :
  let b := flushRequest w world in
  let m' := fst (flushUpdates ctx (w, world)) in
  match snd (flushUpdates ctx (w, world)) with
  | None =>
      exists log,
        calls (snd m') = log ++ [CallUploadBatch b] /\
        UploadBatch (w_client w) log b = None
  | Some e =>
      (IsPermanentError (Some e) = true /\
       exists log,
         calls (snd m') = log ++ [CallUploadBatch b] /\
         UploadBatch (w_client w) log b = Some e) \/
      (e = ErrWaitTimeout /\
       calls (snd m') =
         calls world ++
         repeat (CallUploadBatch b) (wait.Steps rpcRetryBackoff)) \/
      (Some e = context.Err (ctx (calls (snd m'))))
  end.
Proof.
  intros b m'. subst m'. rewrite flushUpdates_unfold. fold b.
  exact (flush_loop_result ctx b (wait.Steps rpcRetryBackoff)
           (set_resumeToken (NextResumeToken b) w) (snd (resumeToken world))).
Qed.

Lemma flush_loop_exhausted (ctx : Context) (b : UploadBatchRequest)
    (steps : nat) :
  forall (w : writer) (world : World),
    (forall log, ctx log = context.Live) ->
    (forall log, exists e,
        UploadBatch (w_client w) log b = Some e /\
        IsPermanentError (Some e) = false) ->
    wait.ExponentialBackoffWithContext (ctxErr ctx) steps (flushAttempt b)
      (w, world) = (attempts b steps (w, world), Some ErrWaitTimeout) /\
    fst (attempts b steps (w, world)) = w.
Proof.
  induction steps as [|steps IH]; intros w world Hlive Hfail;
    cbn [wait.ExponentialBackoffWithContext attempts].
  - auto.
  - unfold ctxErr at 1. rewrite Hlive. cbn [context.Err].
    destruct (Hfail (calls world)) as (e & He & Hperm).
    assert (Hatt : flushAttempt b (w, world) =
                   ((w, record (CallUploadBatch b) world), (false, None))).
    { unfold flushAttempt. rewrite He, Hperm. reflexivity. }
    rewrite Hatt. cbn [fst]. apply IH; assumption.
Qed.

(** A service that answers every call with a transient status, under a
    live context: the flush makes exactly [Steps] calls and returns
    [ErrWaitTimeout], not the status of the service; the buffer is kept. *)
Theorem flushUpdates_exhausted (ctx : Context) (w : writer) (world : World) :
  (forall log, ctx log = context.Live) ->
  (forall log, exists e,
      UploadBatch (w_client w) log (flushRequest w world) = Some e /\
      IsPermanentError (Some e) = false) ->
  snd (flushUpdates ctx (w, world)) = Some ErrWaitTimeout /\
  calls (snd (fst (flushUpdates ctx (w, world)))) =
    calls world ++
    repeat (CallUploadBatch (flushRequest w world))
      (wait.Steps rpcRetryBackoff) /\
  w_updates (fst (fst (flushUpdates ctx (w, world)))) = w_updates w.
Proof.
  intros Hlive Hfail. rewrite flushUpdates_unfold.
  destruct (flush_loop_exhausted ctx (flushRequest w world)
              (wait.Steps rpcRetryBackoff)
              (set_resumeToken (NextResumeToken (flushRequest w world)) w)
              (snd (resumeToken world)) Hlive Hfail) as [Hrun Hw].
  rewrite Hrun. cbn [fst snd]. split; [reflexivity|].
  split; [rewrite attempts_calls; reflexivity|].
  rewrite Hw. reflexivity.
Qed.

Lemma flushUpdates_exhausted_witness :
  snd (flushUpdates background (almostFull unavailableClient, world0)) =
    Some ErrWaitTimeout /\
  List.length (batches (calls (snd (fst
    (flushUpdates background (almostFull unavailableClient, world0)))))) = 8.
Proof.
  destruct (flushUpdates_exhausted background
              (almostFull unavailableClient) world0) as (Herr & Hcalls & _).
  - reflexivity.
  - intros log. exists (statusError codes.Unavailable "try again").
    split; reflexivity.
  - split; [exact Herr|]. rewrite Hcalls. reflexivity.
Defined.

(** A permanent status on the first call ends the flush after that one
    call, with that error; the buffer is kept. *)
Theorem flushUpdates_permanent_stops (ctx : Context) (w : writer)
    (world : World) (e : error) :
  ctx (calls world) = context.Live ->
  UploadBatch (w_client w) (calls world) (flushRequest w world) = Some e ->
  IsPermanentError (Some e) = true ->
  flushUpdates ctx (w, world) =
  ((set_resumeToken (NextResumeToken (flushRequest w world)) w,
    record (CallUploadBatch (flushRequest w world)) (snd (resumeToken world))),
   Some e).
Proof.
  intros Hlive Hcall Hperm. rewrite flushUpdates_unfold.
  change (wait.Steps rpcRetryBackoff) with 8.
  cbn [wait.ExponentialBackoffWithContext].
  unfold ctxErr at 1. cbn [snd resumeToken calls]. rewrite Hlive.
  cbn [context.Err]. unfold flushAttempt at 1.
  cbn [set_resumeToken w_client calls]. rewrite Hcall, Hperm. reflexivity.
Qed.

Lemma flushUpdates_permanent_stops_witness :
  batches (calls (snd (fst
    (flushUpdates background (almostFull rejectingClient, world0))))) =
    [flushRequest (almostFull rejectingClient) world0] /\
  snd (flushUpdates background (almostFull rejectingClient, world0)) =
    Some (statusError codes.InvalidArgument "rejected").
Proof.
  rewrite (flushUpdates_permanent_stops background
             (almostFull rejectingClient) world0
             (statusError codes.InvalidArgument "rejected")
             eq_refl eq_refl eq_refl).
  split; reflexivity.
Defined.

(** A flush under a context that is already done makes no call and
    returns the error of the context; the buffer is kept and one token has
    been drawn all the same. *)
Theorem flushUpdates_context_done (ctx : Context) (w : writer) (world : World) :
  ctx (calls world) <> context.Live ->
  flushUpdates ctx (w, world) =
  ((set_resumeToken (NextResumeToken (flushRequest w world)) w,
    snd (resumeToken world)),
   context.Err (ctx (calls world))).
Proof.
  intros Hdone. rewrite flushUpdates_unfold.
  change (wait.Steps rpcRetryBackoff) with 8.
  cbn [wait.ExponentialBackoffWithContext].
  unfold ctxErr at 1. cbn [snd resumeToken calls].
  destruct (ctx (calls world)); [congruence|reflexivity|reflexivity].
Qed.

Lemma flushUpdates_context_done_witness :
  flushUpdates cancelled (almostFull acceptingClient, world0) =
  ((set_resumeToken
      (NextResumeToken (flushRequest (almostFull acceptingClient) world0))
      (almostFull acceptingClient),
    snd (resumeToken world0)),
   Some context.Canceled).
Proof.
  apply (flushUpdates_context_done cancelled (almostFull acceptingClient)
           world0).
  discriminate.
Defined.



(** ** The handshake, whatever the service does *)

Lemma createInvocationAttempt_cases (inv : option Invocation) (w : writer)
    (world : World) :
  let world' :=
    record (CallCreateInvocation (createInvocationRequest w inv)) world in
  (exists e,
      createInvocationAttempt inv (w, world) = ((w, world'), (false, Some e))) \/
  createInvocationAttempt inv (w, world) = ((w, world'), (false, None)) \/
  createInvocationAttempt inv (w, world) = ((w, world'), (true, None)).
Proof.
  unfold createInvocationAttempt, onlyPermanentError.
  destruct (CreateInvocation (w_client w) (calls world)
              (createInvocationRequest w inv)) as [e|];
    [destruct (IsPermanentError (Some e))|]; simpl; eauto.
Qed.

Lemma touchInvocationAttempt_cases (w : writer) (world : World) :
  let world' := record (CallTouchInvocation (touchInvocationRequest w)) world in
  (exists e,
      touchInvocationAttempt (w, world) = ((w, world'), (false, Some e))) \/
  touchInvocationAttempt (w, world) = ((w, world'), (false, None)) \/
  touchInvocationAttempt (w, world) = ((w, world'), (true, None)).
Proof.
  unfold touchInvocationAttempt, onlyPermanentError.
  destruct (TouchInvocation (w_client w) (calls world)
              (touchInvocationRequest w)) as [e|];
    [destruct (IsPermanentError (Some e))|]; simpl; eauto.
Qed.

Lemma retrieveResumeTokenAttempt_cases (w : writer) (world : World) :
  let world' :=
    record (CallGetInvocationUploadMetadata
              (getInvocationUploadMetadataRequest w)) world in
  (exists e,
      retrieveResumeTokenAttempt (w, world) = ((w, world'), (false, Some e))) \/
  retrieveResumeTokenAttempt (w, world) = ((w, world'), (false, None)) \/
  (exists t,
      retrieveResumeTokenAttempt (w, world) =
      ((set_resumeToken t w, world'), (true, None))).
Proof.
  unfold retrieveResumeTokenAttempt, onlyPermanentError.
  destruct (GetInvocationUploadMetadata (w_client w) (calls world)
              (getInvocationUploadMetadataRequest w)) as [meta|e];
    [|destruct (IsPermanentError (Some e))]; simpl; eauto.
Qed.

Lemma createInvocation_trace (ctx : Context) (inv : option Invocation)
    (steps : nat) :
  forall (w : writer) (world : World),
  exists n,
    n <= steps /\
    fst (wait.ExponentialBackoffWithContext (ctxErr ctx) steps
           (createInvocationAttempt inv) (w, world)) =
    (w, {| calls :=
             calls world ++
             repeat (CallCreateInvocation (createInvocationRequest w inv)) n;
           uuid_New := uuid_New world;
           drawn := drawn world |}).
Proof.
  induction steps as [|steps IH]; intros w world;
    cbn [wait.ExponentialBackoffWithContext].
  - exists 0. simpl. rewrite app_nil_r. destruct world; auto.
  - destruct (ctxErr ctx (w, world)).
    { exists 0. simpl. rewrite app_nil_r. destruct world; auto with arith. }
    destruct (createInvocationAttempt_cases inv w world) as [[e H]|[H|H]];
      rewrite H.
    + exists 1. simpl. auto with arith.
    + destruct (IH w (record (CallCreateInvocation
                                (createInvocationRequest w inv)) world))
        as (n & Hn & Hrun).
      exists (S n). split; [lia|]. rewrite Hrun.
      simpl. rewrite <- app_assoc. reflexivity.
    + exists 1. simpl. auto with arith.
Qed.

Lemma touchInvocation_trace (ctx : Context) (steps : nat) :
  forall (w : writer) (world : World),
  exists n,
    n <= steps /\
    fst (wait.ExponentialBackoffWithContext (ctxErr ctx) steps
           touchInvocationAttempt (w, world)) =
    (w, {| calls :=
             calls world ++
             repeat (CallTouchInvocation (touchInvocationRequest w)) n;
           uuid_New := uuid_New world;
           drawn := drawn world |}).
Proof.
  induction steps as [|steps IH]; intros w world;
    cbn [wait.ExponentialBackoffWithContext].
  - exists 0. simpl. rewrite app_nil_r. destruct world; auto.
  - destruct (ctxErr ctx (w, world)).
    { exists 0. simpl. rewrite app_nil_r. destruct world; auto with arith. }
    destruct (touchInvocationAttempt_cases w world) as [[e H]|[H|H]];
      rewrite H.
    + exists 1. simpl. auto with arith.
    + destruct (IH w (record (CallTouchInvocation
                                (touchInvocationRequest w)) world))
        as (n & Hn & Hrun).
      exists (S n). split; [lia|]. rewrite Hrun.
      simpl. rewrite <- app_assoc. reflexivity.
    + exists 1. simpl. auto with arith.
Qed.

Lemma retrieveResumeToken_trace (ctx : Context) (steps : nat) :
  forall (w : writer) (world : World),
  exists n,
    n <= steps /\
    snd (fst (wait.ExponentialBackoffWithContext (ctxErr ctx) steps
                retrieveResumeTokenAttempt (w, world))) =
    {| calls :=
         calls world ++
         repeat (CallGetInvocationUploadMetadata
                   (getInvocationUploadMetadataRequest w)) n;
       uuid_New := uuid_New world;
       drawn := drawn world |}.
Proof.
  induction steps as [|steps IH]; intros w world;
    cbn [wait.ExponentialBackoffWithContext].
  - exists 0. simpl. rewrite app_nil_r. destruct world; auto.
  - destruct (ctxErr ctx (w, world)).
    { exists 0. simpl. rewrite app_nil_r. destruct world; auto with arith. }
    destruct (retrieveResumeTokenAttempt_cases w world) as [[e H]|[H|[t H]]];
      rewrite H.
    + exists 1. simpl. auto with arith.
    + destruct (IH w (record (CallGetInvocationUploadMetadata
                                (getInvocationUploadMetadataRequest w)) world))
        as (n & Hn & Hrun).
      exists (S n). split; [lia|]. rewrite Hrun.
      simpl. rewrite <- app_assoc. reflexivity.
    + exists 1. simpl. auto with arith.
Qed.

(** Each RPC of the handshake is tried at most [Steps] times, always with
    the same request. [createInvocation] and [touchInvocation] change
    nothing but the call log; [retrieveResumeToken] changes the log and, at
    most, the current token of the writer. *)
Theorem handshake_rpcs_bounded (ctx : Context) (inv : option Invocation)
    (w : writer) (world : World) :
  (exists n,
      n <= wait.Steps rpcRetryBackoff /\
      fst (createInvocation ctx inv (w, world)) =
      (w, {| calls :=
               calls world ++
               repeat (CallCreateInvocation (createInvocationRequest w inv)) n;
             uuid_New := uuid_New world;
             drawn := drawn world |})) /\
  (exists n,
      n <= wait.Steps rpcRetryBackoff /\
      fst (touchInvocation ctx (w, world)) =
      (w, {| calls :=
               calls world ++
               repeat (CallTouchInvocation (touchInvocationRequest w)) n;
             uuid_New := uuid_New world;
             drawn := drawn world |})) /\
  (exists n t,
      n <= wait.Steps rpcRetryBackoff /\
      fst (retrieveResumeToken ctx (w, world)) =
      (set_resumeToken t w,
       {| calls :=
            calls world ++
            repeat (CallGetInvocationUploadMetadata
                      (getInvocationUploadMetadataRequest w)) n;
          uuid_New := uuid_New world;
          drawn := drawn world |})).
Proof.
  split; [apply createInvocation_trace|].
  split; [apply touchInvocation_trace|].
  destruct (retrieveResumeToken_trace ctx (wait.Steps rpcRetryBackoff) w world)
    as (n & Hn & Hworld).
  pose proof (retrieveResumeToken_loop ctx (wait.Steps rpcRetryBackoff) w world)
    as Hw.
  cbv zeta in Hw. unfold retrieveResumeToken.
  destruct (wait.ExponentialBackoffWithContext (ctxErr ctx)
              (wait.Steps rpcRetryBackoff) retrieveResumeTokenAttempt
              (w, world)) as [[w' world'] err].
  cbn [fst snd] in *. subst world'.
  destruct err as [e|].
  - exists n, (w_resumeToken w). subst w'. split; [exact Hn|].
    destruct w; reflexivity.
  - destruct Hw as (log & meta & _ & _ & ->).
    exists n, (um_ResumeToken meta). auto.
Qed.

(** Whatever the service and the context do, [New] returns either a writer
    and no error or an error and no writer. A returned writer has the
    given client, identifier and authorization token, an empty buffer and a
    clear latch. One token is drawn, and the calls made are CreateInvocation
    calls, then TouchInvocation calls, then GetInvocationUploadMetadata
    calls, at most [Steps] of each, with requests built from the given
    identifier and authorization token; no batch is ever uploaded. *)
Theorem New_outcome (ctx : Context) (client : ResultStoreBatchClient)
    (inv : option Invocation) (invID authToken : string) (world : World) :
  let w0 :=
    {| w_client := client; w_invID := invID; w_authToken := authToken;
       w_resumeToken := fst (resumeToken world); w_updates := [];
       w_finalized := false |} in
  let res := New ctx client inv invID authToken world in
  (exists a b c,
      a <= wait.Steps rpcRetryBackoff /\
      b <= wait.Steps rpcRetryBackoff /\
      c <= wait.Steps rpcRetryBackoff /\
      calls (snd res) =
        calls world
        ++ repeat (CallCreateInvocation (createInvocationRequest w0 inv)) a
        ++ repeat (CallTouchInvocation (touchInvocationRequest w0)) b
        ++ repeat (CallGetInvocationUploadMetadata
                     (getInvocationUploadMetadataRequest w0)) c) /\
  drawn (snd res) = S (drawn world) /\
  match fst res with
  | (Some w, None) =>
      w_client w = client /\ w_invID w = invID /\ w_authToken w = authToken /\
      w_updates w = [] /\ w_finalized w = false
  | (None, Some _) => True
  | _ => False
  end.
Proof.
  intros w0 res. subst res. rewrite New_unfold. cbv zeta. fold w0.
  destruct (createInvocation_trace ctx inv (wait.Steps rpcRetryBackoff)
              w0 (snd (resumeToken world))) as (a & Ha & Hcreate).
  fold (createInvocation ctx inv (w0, snd (resumeToken world))) in Hcreate.
  destruct (createInvocation ctx inv (w0, snd (resumeToken world)))
    as [[w1 world1] err1].
  cbn [fst] in Hcreate. injection Hcreate as -> ->.
  destruct err1 as [e1|].
  2:{ cbn [fst snd calls drawn resumeToken].
      split; [|split; [reflexivity|repeat split]].
      exists a, 0, 0. cbn [repeat]. rewrite !app_nil_r. auto with arith. }
  destruct (IsAlreadyExistsErr (Some e1)); cbn [negb].
  2:{ cbn [fst snd calls drawn resumeToken].
      split; [|split; [reflexivity|exact I]].
      exists a, 0, 0. cbn [repeat]. rewrite !app_nil_r. auto with arith. }
  match goal with
  | |- context [touchInvocation ctx (w0, ?wd)] =>
      destruct (touchInvocation_trace ctx (wait.Steps rpcRetryBackoff) w0 wd)
        as (b & Hb & Htouch);
      fold (touchInvocation ctx (w0, wd)) in Htouch;
      destruct (touchInvocation ctx (w0, wd)) as [[w2 world2] touchErr]
  end.
  cbn [fst] in Htouch. injection Htouch as -> ->.
  destruct (IsPermanentError touchErr).
  { cbn [fst snd calls drawn resumeToken].
    split; [|split; [reflexivity|exact I]].
    exists a, b, 0. cbn [repeat]. rewrite !app_nil_r, <- app_assoc.
    auto with arith. }
  match goal with
  | |- context [retrieveResumeToken ctx (w0, ?wd)] =>
      destruct (retrieveResumeToken_trace ctx (wait.Steps rpcRetryBackoff)
                  w0 wd) as (c & Hc & Hget);
      pose proof (retrieveResumeToken_loop ctx (wait.Steps rpcRetryBackoff)
                    w0 wd) as Hw;
      fold (retrieveResumeToken ctx (w0, wd)) in Hget, Hw;
      destruct (retrieveResumeToken ctx (w0, wd)) as [[w3 world3] err3]
  end.
  cbv zeta in Hw. cbn [fst snd] in Hget, Hw. subst world3.
  assert (Hcalls : forall x y z : list Call,
             ((calls world ++ x) ++ y) ++ z = calls world ++ x ++ y ++ z)
    by (intros; rewrite <- !app_assoc; reflexivity).
  destruct err3 as [e3|].
  - cbn [fst snd calls drawn resumeToken].
    split; [|split; [reflexivity|exact I]].
    exists a, b, c. rewrite Hcalls. auto.
  - destruct Hw as (log & meta & _ & _ & ->).
    cbn [fst snd calls drawn resumeToken].
    split; [|split; [reflexivity|repeat split]].
    exists a, b, c. rewrite Hcalls. auto.
Qed.

(** A creation that ends in any error other than AlreadyExists ends
    [New] with that error, after CreateInvocation calls only: the
    invocation is neither touched nor asked for its metadata. *)
Theorem New_creation_refused (ctx : Context) (client : ResultStoreBatchClient)
    (inv : option Invocation) (invID authToken : string) (world : World)
    (m1 : Machine) (e : error) :
  let w0 :=
    {| w_client := client; w_invID := invID; w_authToken := authToken;
       w_resumeToken := fst (resumeToken world); w_updates := [];
       w_finalized := false |} in
  createInvocation ctx inv (w0, snd (resumeToken world)) = (m1, Some e) ->
  IsAlreadyExistsErr (Some e) = false ->
  New ctx client inv invID authToken world = (None, Some e, snd m1) /\
  exists n,
    n <= wait.Steps rpcRetryBackoff /\
    calls (snd m1) =
      calls world ++
      repeat (CallCreateInvocation (createInvocationRequest w0 inv)) n.
Proof.
  intros w0 Hcreate Hnot.
  destruct (createInvocation_trace ctx inv (wait.Steps rpcRetryBackoff)
              w0 (snd (resumeToken world))) as (n & Hn & Htrace).
  fold (createInvocation ctx inv (w0, snd (resumeToken world))) in Htrace.
  rewrite Hcreate in Htrace. cbn [fst] in Htrace. subst m1.
  split.
  - rewrite New_unfold. cbv zeta. fold w0. rewrite Hcreate, Hnot. reflexivity.
  - exists n. auto.
Qed.

Lemma New_creation_refused_witness :
  New background forbiddingClient None "inv-1" "auth-1" world0 =
  (None, Some (statusError codes.PermissionDenied "forbidden"),
   record
     (CallCreateInvocation
        {| cir_InvocationId := "inv-1"; cir_Invocation := None;
           cir_AuthorizationToken := "auth-1";
           InitialResumeToken := fst (resumeToken world0) |})
     (snd (resumeToken world0))).
Proof.
  exact (proj1 (New_creation_refused background forbiddingClient None
                  "inv-1" "auth-1" world0 _ _ eq_refl eq_refl)).
Defined.

(** Under a context that is already done, [New] makes no call at all and
    returns the error of the context and no writer. *)
Theorem New_context_done (ctx : Context) (client : ResultStoreBatchClient)
    (inv : option Invocation) (invID authToken : string) (world : World) :
  ctx (calls world) <> context.Live ->
  New ctx client inv invID authToken world =
  (None, context.Err (ctx (calls world)), snd (resumeToken world)).
Proof.
  intros Hdone. rewrite New_unfold. cbv zeta.
  unfold createInvocation. change (wait.Steps rpcRetryBackoff) with 8.
  cbn [wait.ExponentialBackoffWithContext].
  unfold ctxErr at 1. cbn [snd resumeToken calls].
  destruct (ctx (calls world)); [congruence|reflexivity|reflexivity].
Qed.

Lemma New_context_done_witness :
  New cancelled acceptingClient None "inv-1" "auth-1" world0 =
  (None, Some context.Canceled, snd (resumeToken world0)).
Proof.
  apply (New_context_done cancelled acceptingClient None "inv-1" "auth-1"
           world0).
  discriminate.
Defined.

(** ** Scripts of operations, whatever the service does *)

Lemma Return_inj {A : Type} (a b : A) : Return a = Return b -> a = b.
Proof. intros H. injection H as H. exact H. Qed.

Lemma flushUpdates_step (ctx : Context) (w : writer) (world : World) :
  let res := flushUpdates ctx (w, world) in
  w_client (fst (fst res)) = w_client w /\
  w_invID (fst (fst res)) = w_invID w /\
  w_authToken (fst (fst res)) = w_authToken w /\
  w_finalized (fst (fst res)) = w_finalized w /\
  exists n,
    calls (snd (fst res)) =
    calls world ++ map CallUploadBatch (repeat (flushRequest w world) n).
Proof.
  cbv zeta.
  destruct (flushUpdates_spec ctx w world) as (n & _ & Hcalls & _ & _ & Hw).
  rewrite Hw, Hcalls.
  assert (He : exists k,
             calls world ++ repeat (CallUploadBatch (flushRequest w world)) n =
             calls world ++
             map CallUploadBatch (repeat (flushRequest w world) k))
    by (exists n; rewrite map_repeat; reflexivity).
  destruct (snd (flushUpdates ctx (w, world))); simpl; auto.
Qed.

(** One append: the identity of the writer is kept, the latch is set by a
    finalize envelope and by nothing else, and the only calls made are
    UploadBatch calls addressed to the writer's invocation with its
    authorization token. *)
Lemma addUploadRequest_step (ctx : Context) (r : UploadRequest) (w : writer)
    (world : World) :
  let res := addUploadRequest ctx r (w, world) in
  w_client (fst (fst res)) = w_client w /\
  w_invID (fst (fst res)) = w_invID w /\
  w_authToken (fst (fst res)) = w_authToken w /\
  w_finalized (fst (fst res)) = w_finalized w || isFinalize r /\
  exists bs,
    calls (snd (fst res)) = calls world ++ map CallUploadBatch bs /\
    Forall (fun b => Parent b = invocationName w /\
                     ubr_AuthorizationToken b = w_authToken w) bs.
Proof.
  cbv zeta. destruct (w_finalized w) eqn:Hfin.
  - rewrite addUploadRequest_finalized by exact Hfin. cbn [fst snd].
    repeat split; try assumption. exists []. simpl. rewrite app_nil_r. auto.
  - assert (Hflush : forall w1,
               w_client w1 = w_client w -> w_invID w1 = w_invID w ->
               w_authToken w1 = w_authToken w ->
               let res := flushUpdates ctx (w1, world) in
               w_client (fst (fst res)) = w_client w /\
               w_invID (fst (fst res)) = w_invID w /\
               w_authToken (fst (fst res)) = w_authToken w /\
               w_finalized (fst (fst res)) = w_finalized w1 /\
               exists bs,
                 calls (snd (fst res)) = calls world ++ map CallUploadBatch bs /\
                 Forall (fun b => Parent b = invocationName w /\
                                  ubr_AuthorizationToken b = w_authToken w) bs).
    { intros w1 H1 H2 H3. cbv zeta.
      destruct (flushUpdates_step ctx w1 world) as (A & B & C & D & n & E).
      rewrite A, B, C, D, E, H1, H2, H3. repeat split.
      eexists. split; [reflexivity|].
      apply Forall_forall. intros b Hb. apply repeat_spec in Hb. subst b.
      unfold flushRequest, uploadBatchRequest, invocationName. simpl.
      rewrite H2, H3. auto. }
    destruct (isFinalize r) eqn:Hr.
    + rewrite addUploadRequest_finalize by assumption.
      apply (Hflush (set_updates (w_updates w ++ [r]) (set_finalized true w)));
        reflexivity.
    + rewrite addUploadRequest_threshold by assumption.
      destruct (List.length (w_updates w) + 1 <? batchSize).
      * cbn [fst snd set_updates w_client w_invID w_authToken w_finalized].
        repeat split; try assumption.
        exists []. simpl. rewrite app_nil_r. auto.
      * destruct (Hflush (set_updates (w_updates w ++ [r]) w)
                    eq_refl eq_refl eq_refl) as (A & B & C & D & E).
        cbn [set_updates w_finalized] in D. rewrite Hfin in D. auto.
Qed.

Lemma performAll_step (ctx : Context) (ops : list Write) :
  forall (w : writer) (world : World) (m' : Machine)
         (errs : list (option error)),
    performAll ctx ops (w, world) = Return (m', errs) ->
    w_client (fst m') = w_client w /\
    w_invID (fst m') = w_invID w /\
    w_authToken (fst m') = w_authToken w /\
    w_finalized (fst m') = w_finalized w || existsb isFinalizeWrite ops /\
    List.length errs = List.length ops /\
    exists bs,
      calls (snd m') = calls world ++ map CallUploadBatch bs /\
      Forall (fun b => Parent b = invocationName w /\
                       ubr_AuthorizationToken b = w_authToken w) bs.
Proof.
  induction ops as [|op ops IH]; intros w world m' errs Hrun.
  - injection Hrun as <- <-. cbn [fst snd existsb].
    rewrite orb_false_r. repeat split.
    exists []. simpl. rewrite app_nil_r. auto.
  - cbn [performAll] in Hrun.
    destruct (perform ctx op (w, world)) as [|[[w1 world1] e]] eqn:Hstep;
      [discriminate|].
    destruct (performAll ctx ops (w1, world1)) as [|[m2 es]] eqn:Hrest;
      [discriminate|].
    injection Hrun as <- <-.
    rewrite perform_envelope in Hstep. cbn [fst] in Hstep.
    destruct (envelope w op) as [|r] eqn:Henv; [discriminate|].
    cbn [andThen] in Hstep. apply Return_inj in Hstep.
    pose proof (addUploadRequest_step ctx r w world) as Hadd.
    cbv zeta in Hadd. rewrite Hstep in Hadd. cbn [fst snd] in Hadd.
    destruct Hadd as (A & B & C & D & bs1 & E & F).
    destruct (IH w1 world1 m2 es Hrest) as (A' & B' & C' & D' & L & bs2 & E' & F').
    rewrite A', B', C', D', D, A, B, C, (envelope_isFinalize w op r Henv).
    cbn [existsb List.length]. rewrite orb_assoc, L.
    repeat split.
    exists (bs1 ++ bs2). rewrite E', E, map_app, app_assoc.
    split; [reflexivity|].
    apply Forall_app. split; [exact F|].
    unfold invocationName in F' |- *. rewrite B, C in F'. exact F'.
Qed.

(** Over any script that does not panic, the writer keeps its client, its
    invocation identifier and its authorization token; the operations make
    no call other than UploadBatch, and every batch is addressed to the
    writer's invocation and carries its authorization token. Every
    operation of the script returns. *)
Theorem writes_keep_identity (ctx : Context) (ops : list Write) (w : writer)
    (world : World) (m' : Machine) (errs : list (option error)) :
  performAll ctx ops (w, world) = Return (m', errs) ->
  w_client (fst m') = w_client w /\
  w_invID (fst m') = w_invID w /\
  w_authToken (fst m') = w_authToken w /\
  List.length errs = List.length ops /\
  exists bs,
    calls (snd m') = calls world ++ map CallUploadBatch bs /\
    Forall (fun b => Parent b = invocationName w /\
                     ubr_AuthorizationToken b = w_authToken w) bs.
Proof.
  intros Hrun.
  destruct (performAll_step ctx ops w world m' errs Hrun)
    as (A & B & C & _ & L & H).
  auto.
Qed.

Lemma writes_keep_identity_witness :
  exists m' errs,
    performAll background
      (repeat (WTarget (Some someTarget)) 101 ++ [WFinalize])
      (freshWriter rejectingClient, world0) = Return (m', errs) /\
    w_invID (fst m') = "inv-1" /\
    List.length errs = 102.
Proof.
  assert (H : exists x,
             performAll background
               (repeat (WTarget (Some someTarget)) 101 ++ [WFinalize])
               (freshWriter rejectingClient, world0) = Return x)
    by (eexists; vm_compute; reflexivity).
  destruct H as [[m' errs] H]. exists m', errs.
  destruct (writes_keep_identity background _ _ _ _ _ H)
    as (_ & B & _ & L & _).
  split; [exact H|]. split; [exact B|]. rewrite L, length_app, repeat_length.
  reflexivity.
Defined.

(** Over any script that does not panic, the latch ends set exactly when
    it was set before or the script contains a [Finalize]: no write sets
    it, and nothing the service answers sets or clears it. *)
Theorem latch_set_by_Finalize_only (ctx : Context) (ops : list Write)
    (w : writer) (world : World) (m' : Machine) (errs : list (option error)) :
  performAll ctx ops (w, world) = Return (m', errs) ->
  w_finalized (fst m') = w_finalized w || existsb isFinalizeWrite ops.
Proof.
  intros Hrun.
  destruct (performAll_step ctx ops w world m' errs Hrun)
    as (_ & _ & _ & D & _).
  exact D.
Qed.

Lemma latch_set_by_Finalize_only_witness :
  exists m' errs,
    performAll background
      [WTarget (Some someTarget); WFinalize; WTarget (Some someTarget)]
      (freshWriter rejectingClient, world0) = Return (m', errs) /\
    w_finalized (fst m') = true.
Proof.
  assert (H : exists x,
             performAll background
               [WTarget (Some someTarget); WFinalize; WTarget (Some someTarget)]
               (freshWriter rejectingClient, world0) = Return x)
    by (eexists; vm_compute; reflexivity).
  destruct H as [[m' errs] H]. exists m', errs.
  split; [exact H|].
  rewrite (latch_set_by_Finalize_only background _ _ _ _ _ H). reflexivity.
Defined.

(** Once the latch is set, a script changes nothing: the machine after it
    is the machine before it, call log included, and every operation of
    the script returned an error. *)
Theorem finalized_writer_is_frozen (ctx : Context) (ops : list Write) :
  forall (w : writer) (world : World) (m' : Machine)
         (errs : list (option error)),
    w_finalized w = true ->
    performAll ctx ops (w, world) = Return (m', errs) ->
    m' = (w, world) /\
    Forall (fun e => e <> None) errs /\
    List.length errs = List.length ops.
Proof.
  induction ops as [|op ops IH]; intros w world m' errs Hfin Hrun.
  - injection Hrun as <- <-. auto.
  - cbn [performAll] in Hrun.
    rewrite perform_envelope in Hrun. cbn [fst] in Hrun.
    destruct (envelope w op) as [|r]; [discriminate|].
    cbn [andThen] in Hrun.
    rewrite addUploadRequest_finalized in Hrun by exact Hfin.
    destruct (performAll ctx ops (w, world)) as [|[m2 es]] eqn:Hrest;
      [discriminate|].
    injection Hrun as <- <-.
    destruct (IH w world m2 es Hfin Hrest) as (A & B & C).
    split; [exact A|]. split; [|simpl; congruence].
    constructor; [discriminate|exact B].
Qed.

Lemma finalized_writer_is_frozen_witness :
  exists errs,
    performAll background
      [WTarget (Some someTarget); WFinalize;
       WConfiguration (Some someConfiguration)]
      (set_finalized true (almostFull acceptingClient), world0) =
    Return ((set_finalized true (almostFull acceptingClient), world0), errs) /\
    Forall (fun e => e <> None) errs.
Proof.
  assert (H : exists x,
             performAll background
               [WTarget (Some someTarget); WFinalize;
                WConfiguration (Some someConfiguration)]
               (set_finalized true (almostFull acceptingClient), world0) =
             Return x)
    by (eexists; vm_compute; reflexivity).
  destruct H as [[m' errs] H]. exists errs.
  destruct (finalized_writer_is_frozen background _
              (set_finalized true (almostFull acceptingClient)) world0
              m' errs eq_refl H) as (A & B & _).
  rewrite A in H. auto.
Defined.

(** ** Scripts of writes against an accepting service *)

Lemma envelope_any_writer (w1 w2 : writer) (op : Write) :
  envelope w1 op = envelope w2 op.
Proof. destruct op; reflexivity. Qed.

Lemma envelopes_any_writer (w1 w2 : writer) (ops : list Write) :
  envelopes w1 ops = envelopes w2 ops.
Proof.
  induction ops as [|op ops IH]; [reflexivity|].
  cbn [envelopes]. rewrite (envelope_any_writer w1 w2 op), IH. reflexivity.
Qed.

Lemma performAll_accepting (ctx : Context) (ops : list Write) :
  forall (w : writer) (world : World) (m' : Machine)
         (errs : list (option error)),
    w_finalized w = false ->
    Forall (fun op => isFinalizeWrite op = false) ops ->
    (forall log, ctx log = context.Live) ->
    (forall log b, UploadBatch (w_client w) log b = None) ->
    performAll ctx ops (w, world) = Return (m', errs) ->
    Forall (eq None) errs /\
    exists bs,
      calls (snd m') = calls world ++ map CallUploadBatch bs /\
      List.concat (map UploadRequests bs) ++ w_updates (fst m') =
        w_updates w ++ envelopes w ops /\
      linked (w_resumeToken w) bs (w_resumeToken (fst m')).
Proof.
  induction ops as [|op ops IH]; intros w world m' errs Hfin Hops Hlive Hok Hrun.
  - injection Hrun as <- <-. split; [constructor|].
    exists []. simpl. rewrite !app_nil_r. auto.
  - inversion Hops as [|? ? Hop Hops']; subst.
    cbn [performAll] in Hrun.
    destruct (perform ctx op (w, world)) as [|[m1 e]] eqn:Hstep;
      [discriminate|].
    destruct (performAll ctx ops m1) as [|[m2 es]] eqn:Hrest; [discriminate|].
    apply Return_inj in Hrun. injection Hrun as <- <-.
    destruct (perform_nonfinal ctx op w world m1 e Hfin Hop Hstep)
      as (r & Henv & [(_ & -> & ->)|(_ & Hflush)]).
    + destruct (IH (set_updates (w_updates w ++ [r]) w) world m2 es
                  Hfin Hops' Hlive Hok Hrest) as (Herrs & bs & Hcalls & Hcat & Hlink).
      split; [constructor; [reflexivity|exact Herrs]|].
      exists bs. split; [exact Hcalls|]. split; [|exact Hlink].
      rewrite Hcat. cbn [set_updates w_updates envelopes]. rewrite Henv.
      rewrite <- app_assoc.
      rewrite (envelopes_any_writer (set_updates (w_updates w ++ [r]) w) w).
      reflexivity.
    + match type of Hflush with
      | flushUpdates _ (?w1, _) = _ =>
          rewrite (flushUpdates_accepted ctx w1 world (Hlive _) (Hok _ _))
            in Hflush
      end.
      injection Hflush as <- <-.
      match type of Hrest with
      | performAll _ _ (?w1, ?world1) = _ =>
          destruct (IH w1 world1 m2 es Hfin Hops' Hlive Hok Hrest)
            as (Herrs & bs & Hcalls & Hcat & Hlink)
      end.
      split; [constructor; [reflexivity|exact Herrs]|].
      eexists (_ :: bs). split; [|split].
      * rewrite Hcalls. cbn [record calls resumeToken snd map].
        rewrite <- app_assoc. reflexivity.
      * cbn [map List.concat]. rewrite <- app_assoc, Hcat.
        cbn [set_updates w_updates envelopes app].
        rewrite Henv.
        match goal with
        | |- context [envelopes ?w1 ops] =>
            rewrite (envelopes_any_writer w1 w)
        end.
        replace (UploadRequests
                   (flushRequest (set_updates (w_updates w ++ [r]) w) world))
          with (w_updates w ++ [r]) by reflexivity.
        rewrite <- app_assoc. reflexivity.
      * cbn [linked]. split; [reflexivity|exact Hlink].
Qed.

(** Non-finalize writes on a writer that is not finalized, under a live
    context and against a service that accepts every batch: every write
    returns nil, and the envelopes of the batches sent, taken in order and
    followed by the buffer that is left, are the initial buffer followed by
    the envelopes of the script. No envelope is lost, sent twice, or
    reordered. *)
Theorem envelopes_sent_in_order (ctx : Context) (ops : list Write)
    (w : writer) (world : World) (m' : Machine) (errs : list (option error)) :
  w_finalized w = false ->
  Forall (fun op => isFinalizeWrite op = false) ops ->
  (forall log, ctx log = context.Live) ->
  (forall log b, UploadBatch (w_client w) log b = None) ->
  performAll ctx ops (w, world) = Return (m', errs) ->
  Forall (eq None) errs /\
  exists bs,
    calls (snd m') = calls world ++ map CallUploadBatch bs /\
    List.concat (map UploadRequests bs) ++ w_updates (fst m') =
      w_updates w ++ envelopes w ops.
Proof.
  intros Hfin Hops Hlive Hok Hrun.
  destruct (performAll_accepting ctx ops w world m' errs
              Hfin Hops Hlive Hok Hrun) as (Herrs & bs & Hcalls & Hcat & _).
  split; [exact Herrs|]. exists bs. auto.
Qed.

Lemma envelopes_sent_in_order_witness :
  exists m' bs,
    performAll background (repeat (WTarget (Some someTarget)) 250)
      (freshWriter acceptingClient, world0) = Return (m', repeat None 250) /\
    calls (snd m') = map CallUploadBatch bs /\
    List.concat (map UploadRequests bs) ++ w_updates (fst m') =
      repeat someTargetEnvelope 250.
Proof.
  assert (H : exists m',
             performAll background (repeat (WTarget (Some someTarget)) 250)
               (freshWriter acceptingClient, world0) =
             Return (m', repeat None 250))
    by (eexists; vm_compute; reflexivity).
  destruct H as [m' H].
  assert (Hnf : Forall (fun op => isFinalizeWrite op = false)
                  (repeat (WTarget (Some someTarget)) 250)).
  { apply Forall_forall. intros x Hx. apply repeat_spec in Hx. subst x.
    reflexivity. }
  destruct (envelopes_sent_in_order background
              (repeat (WTarget (Some someTarget)) 250)
              (freshWriter acceptingClient) world0 m' (repeat None 250)
              eq_refl Hnf (fun _ => eq_refl) (fun _ _ => eq_refl) H)
    as (_ & bs & Hcalls & Hcat).
  exists m', bs. split; [exact H|]. split; [exact Hcalls|].
  rewrite Hcat. vm_compute. reflexivity.
Defined.

(** Under the same conditions the batches form a chain of resume tokens:
    the first is sent with the token the writer held, each next one with
    the token the one before proposed as next, and the writer ends with
    the token the last one proposed. *)
Theorem batches_linked_by_tokens (ctx : Context) (ops : list Write)
    (w : writer) (world : World) (m' : Machine) (errs : list (option error)) :
  w_finalized w = false ->
  Forall (fun op => isFinalizeWrite op = false) ops ->
  (forall log, ctx log = context.Live) ->
  (forall log b, UploadBatch (w_client w) log b = None) ->
  performAll ctx ops (w, world) = Return (m', errs) ->
  exists bs,
    calls (snd m') = calls world ++ map CallUploadBatch bs /\
    linked (w_resumeToken w) bs (w_resumeToken (fst m')).
Proof.
  intros Hfin Hops Hlive Hok Hrun.
  destruct (performAll_accepting ctx ops w world m' errs
              Hfin Hops Hlive Hok Hrun) as (_ & bs & Hcalls & _ & Hlink).
  exists bs. auto.
Qed.

Lemma batches_linked_by_tokens_witness :
  exists m' bs,
    performAll background (repeat (WTarget (Some someTarget)) 250)
      (freshWriter acceptingClient, world0) = Return (m', repeat None 250) /\
    calls (snd m') = map CallUploadBatch bs /\
    linked (w_resumeToken (freshWriter acceptingClient)) bs
      (w_resumeToken (fst m')).
Proof.
  assert (H : exists m',
             performAll background (repeat (WTarget (Some someTarget)) 250)
               (freshWriter acceptingClient, world0) =
             Return (m', repeat None 250))
    by (eexists; vm_compute; reflexivity).
  destruct H as [m' H].
  assert (Hnf : Forall (fun op => isFinalizeWrite op = false)
                  (repeat (WTarget (Some someTarget)) 250)).
  { apply Forall_forall. intros x Hx. apply repeat_spec in Hx. subst x.
    reflexivity. }
  destruct (batches_linked_by_tokens background
              (repeat (WTarget (Some someTarget)) 250)
              (freshWriter acceptingClient) world0 m' (repeat None 250)
              eq_refl Hnf (fun _ => eq_refl) (fun _ _ => eq_refl) H)
    as (bs & Hcalls & Hlink).
  exists m', bs. auto.
Defined.

(** ** Writing the same object twice *)



(** * Properties of the close handler *)

Module lifecycle_facts.
Import lifecycle.

(** The handler on an event it acts on, with the permission checks
    folded into [mayClose]. *)
Lemma handleClose_relevant (imp : Imports) (gc : closeClient)
    (e : GenericCommentEvent) (log : list GitHubCall) :
  relevant imp e = true ->
  handleClose imp gc e log =
  let org := Login (Owner (EventRepo e)) in
  let repo := RepoName (EventRepo e) in
  if negb (mayClose imp gc e log) then
    comment imp gc e
      "You can't close an active issue/PR unless you authored it or you are a collaborator."
      (checked e log)
  else if IsPR e then
    if MatchString imp closeNotPlannedRe (Body e) then
      comment imp gc e "PRs cannot be closed as Not Planned." (checked e log)
    else
      match ClosePullRequest gc (checked e log) org repo (Number e) with
      | Some err =>
          (checked e log ++ [ClosePullRequestCall org repo (Number e)],
           Some (wraps "Error closing PR: %w" err))
      | None =>
          comment imp gc e "Closed this PR."
            (checked e log ++ [ClosePullRequestCall org repo (Number e)])
      end
  else if MatchString imp closeNotPlannedRe (Body e) then
    match CloseIssueAsNotPlanned gc (checked e log) org repo (Number e) with
    | Some err =>
        (checked e log ++ [CloseIssueAsNotPlannedCall org repo (Number e)],
         Some (wraps ("Error closing issue as " ++ dq ++ "Not Planned" ++ dq
                        ++ ": %w")%string err))
    | None =>
        comment imp gc e
          ("Closing this issue, marking it as " ++ dq ++ "Not Planned" ++ dq
             ++ ".")%string
          (checked e log ++ [CloseIssueAsNotPlannedCall org repo (Number e)])
    end
  else
    match CloseIssue gc (checked e log) org repo (Number e) with
    | Some err =>
        (checked e log ++ [CloseIssueCall org repo (Number e)],
         Some (wraps "Error closing issue: %w" err))
    | None =>
        comment imp gc e "Closing this issue."
          (checked e log ++ [CloseIssueCall org repo (Number e)])
    end.
Proof.
  unfold relevant. intros Hrel.
  apply andb_prop in Hrel. destruct Hrel as [Hrel Hmatch].
  apply andb_prop in Hrel. destruct Hrel as [Hopen Hcreated].
  apply orb_prop in Hmatch.
  unfold handleClose, mayClose, isActive, checked. cbv zeta.
  rewrite Hopen, Hcreated. cbn [negb orb].
  assert (Hm : negb (MatchString imp closeRe (Body e))
               && negb (MatchString imp closeNotPlannedRe (Body e)) = false)
    by (destruct Hmatch as [-> | ->]; cbn [negb andb];
        [reflexivity|apply andb_false_r]).
  rewrite Hm.
  destruct (IsCollaborator gc log (Login (Owner (EventRepo e)))
              (RepoName (EventRepo e)) (Login (EventUser e))) as [collab cerr].
  cbn [fst].
  destruct (GetIssueLabels gc
              (log ++ [IsCollaboratorCall (Login (Owner (EventRepo e)))
                         (RepoName (EventRepo e)) (Login (EventUser e))])
              (Login (Owner (EventRepo e))) (RepoName (EventRepo e))
              (Number e)) as [labels [lerr|]].
  - rewrite orb_false_r.
    destruct (String.eqb (Login (IssueAuthor e)) (Login (EventUser e)));
      destruct collab; reflexivity.
  - destruct (HasLabel imp "lifecycle/stale" labels);
      destruct (HasLabel imp "lifecycle/rotten" labels);
      destruct (String.eqb (Login (IssueAuthor e)) (Login (EventUser e)));
      destruct collab; reflexivity.
Qed.

(** An event on an issue that is not open, or that is not a new comment,
    or whose body has neither command, is ignored: the handler returns nil
    and makes no call. *)
Theorem handleClose_ignores (imp : Imports) (gc : closeClient)
    (e : GenericCommentEvent) (log : list GitHubCall) :
  relevant imp e = false ->
  handleClose imp gc e log = (log, None).
Proof.
  unfold relevant, handleClose. intros Hrel.
  destruct (String.eqb (IssueState e) "open"); [|reflexivity].
  destruct (String.eqb (Action e) (GenericCommentActionCreated imp));
    [|reflexivity].
  cbn [negb orb andb] in *.
  apply orb_false_elim in Hrel. destruct Hrel as [-> ->]. reflexivity.
Qed.

Lemma handleClose_ignores_witness :
  handleClose imports0 (github0 [])
    {| IssueState := "closed"; Action := "created"; Body := "/close";
       HTMLURL := ""; Number := 1%Z;
       EventRepo := {| Owner := {| Login := "org" |}; RepoName := "repo" |};
       EventUser := {| Login := "author" |};
       IssueAuthor := {| Login := "author" |}; IsPR := false |} [] =
  ([], None).
Proof. apply handleClose_ignores. reflexivity. Defined.

(** Which close call the handler makes on an event it acts on: none when
    the commenter is not the author, not a collaborator and the issue is
    not known to be stale or rotten; none for a pull request with the
    not-planned command; and otherwise exactly the one the event asks for,
    a pull-request close for a pull request and an issue close, plain or
    not-planned, for an issue. *)
Theorem handleClose_close_decision (imp : Imports) (gc : closeClient)
    (e : GenericCommentEvent) (log : list GitHubCall) :
  relevant imp e = true ->
  exists new,
    fst (handleClose imp gc e log) = log ++ new /\
    filter isCloseCall new =
      if mayClose imp gc e log then
        match requestedClose imp e with
        | Some c => [c]
        | None => []
        end
      else [].
Proof.
  intros Hrel. rewrite (handleClose_relevant imp gc e log Hrel). cbv zeta.
  unfold requestedClose, comment, checked. cbv zeta.
  assert (H3 : forall x y z : list GitHubCall,
             ((log ++ x) ++ y) ++ z = log ++ (x ++ y ++ z))
    by (intros; rewrite <- !app_assoc; reflexivity).
  assert (H4 : forall x y z u : list GitHubCall,
             (((log ++ x) ++ y) ++ z) ++ u = log ++ (x ++ y ++ z ++ u))
    by (intros; rewrite <- !app_assoc; reflexivity).
  destruct (mayClose imp gc e log); cbn [negb].
  - destruct (IsPR e);
      destruct (MatchString imp closeNotPlannedRe (Body e));
      repeat match goal with
             | |- context [match ?x with Some _ => _ | None => _ end] =>
                 match x with
                 | context [gc] => destruct x
                 end
             end;
      cbn [fst]; rewrite ?H4, ?H3; eexists; (split; [reflexivity|]);
      reflexivity.
  - cbn [fst]. rewrite H3. eexists. split; reflexivity.
Qed.

Lemma handleClose_close_decision_witness :
  filter isCloseCall
    (fst (handleClose imports0
            (github0 [{| LabelName := "lifecycle/rotten"; LabelRest := "" |}])
            (event0 "/close not-planned" "passer-by" false) [])) =
    [CloseIssueAsNotPlannedCall "org" "repo" 1%Z] /\
  filter isCloseCall
    (fst (handleClose imports0 (github0 [])
            (event0 "/close" "passer-by" false) [])) = [].
Proof.
  split.
  - destruct (handleClose_close_decision imports0
                (github0 [{| LabelName := "lifecycle/rotten"; LabelRest := "" |}])
                (event0 "/close not-planned" "passer-by" false) [] eq_refl)
      as (new & Hlog & Hclose).
    rewrite Hlog. exact Hclose.
  - destruct (handleClose_close_decision imports0 (github0 [])
                (event0 "/close" "passer-by" false) [] eq_refl)
      as (new & Hlog & Hclose).
    rewrite Hlog. exact Hclose.
Defined.

(** A commenter who may not close gets one comment and nothing else: the
    calls are the two permission checks and the comment with the refusal,
    and the handler returns what that comment returned. *)
Theorem handleClose_refuses (imp : Imports) (gc : closeClient)
    (e : GenericCommentEvent) (log : list GitHubCall) :
  relevant imp e = true ->
  mayClose imp gc e log = false ->
  let org := Login (Owner (EventRepo e)) in
  let repo := RepoName (EventRepo e) in
  let text :=
    responseTo imp e
      "You can't close an active issue/PR unless you authored it or you are a collaborator." in
  handleClose imp gc e log =
  (checked e log ++ [CreateCommentCall org repo (Number e) text],
   option_map fromClient
     (CreateComment gc (checked e log) org repo (Number e) text)).
Proof.
  intros Hrel Hmay. rewrite (handleClose_relevant imp gc e log Hrel).
  cbv zeta. rewrite Hmay. reflexivity.
Qed.

Lemma handleClose_refuses_witness :
  fst (handleClose imports0 (github0 [])
         (event0 "/close" "passer-by" true) []) =
  [IsCollaboratorCall "org" "repo" "passer-by";
   GetIssueLabelsCall "org" "repo" 1%Z;
   CreateCommentCall "org" "repo" 1%Z
     "@passer-by: You can't close an active issue/PR unless you authored it or you are a collaborator."].
Proof.
  rewrite (handleClose_refuses imports0 (github0 [])
             (event0 "/close" "passer-by" true) [] eq_refl eq_refl).
  reflexivity.
Defined.

(** When the close call the event asks for fails, the handler returns
    that error wrapped and stops: the close call is the last call, and no
    comment is posted. *)
Theorem handleClose_close_fails (imp : Imports) (gc : closeClient)
    (e : GenericCommentEvent) (log : list GitHubCall)
    (c : GitHubCall) (err : error) :
  relevant imp e = true ->
  mayClose imp gc e log = true ->
  requestedClose imp e = Some c ->
  closeAnswer gc (checked e log) c = Some err ->
  let format :=
    match c with
    | ClosePullRequestCall _ _ _ => "Error closing PR: %w"
    | CloseIssueAsNotPlannedCall _ _ _ =>
        ("Error closing issue as " ++ dq ++ "Not Planned" ++ dq ++ ": %w")%string
    | _ => "Error closing issue: %w"
    end in
  handleClose imp gc e log = (checked e log ++ [c], Some (wraps format err)).
Proof.
  intros Hrel Hmay Hreq Hans.
  rewrite (handleClose_relevant imp gc e log Hrel). cbv zeta.
  rewrite Hmay. cbn [negb]. unfold requestedClose in Hreq. cbv zeta in Hreq.
  destruct (IsPR e); destruct (MatchString imp closeNotPlannedRe (Body e));
    try discriminate; injection Hreq as <-; cbn [closeAnswer] in Hans;
    rewrite Hans; reflexivity.
Qed.

Lemma handleClose_close_fails_witness :
  handleClose imports0 (githubDown []) (event0 "/close" "author" true) [] =
  ([IsCollaboratorCall "org" "repo" "author";
    GetIssueLabelsCall "org" "repo" 1%Z;
    ClosePullRequestCall "org" "repo" 1%Z],
   Some (wraps "Error closing PR: %w" (errorString "down"))).
Proof.
  exact (handleClose_close_fails imports0 (githubDown [])
           (event0 "/close" "author" true) []
           (ClosePullRequestCall "org" "repo" 1%Z) (errorString "down")
           eq_refl eq_refl eq_refl eq_refl).
Defined.

(** When the close call the event asks for succeeds, the handler posts
    exactly one comment after it, addressed to the commenter, and returns
    what that comment returned. *)
Theorem handleClose_comments_after_close (imp : Imports) (gc : closeClient)
    (e : GenericCommentEvent) (log : list GitHubCall) (c : GitHubCall) :
  relevant imp e = true ->
  mayClose imp gc e log = true ->
  requestedClose imp e = Some c ->
  closeAnswer gc (checked e log) c = None ->
  let org := Login (Owner (EventRepo e)) in
  let repo := RepoName (EventRepo e) in
  let reply :=
    match c with
    | ClosePullRequestCall _ _ _ => "Closed this PR."
    | CloseIssueAsNotPlannedCall _ _ _ =>
        ("Closing this issue, marking it as " ++ dq ++ "Not Planned" ++ dq
           ++ ".")%string
    | _ => "Closing this issue."
    end in
  handleClose imp gc e log =
  (checked e log ++ [c; CreateCommentCall org repo (Number e)
                          (responseTo imp e reply)],
   option_map fromClient
     (CreateComment gc (checked e log ++ [c]) org repo (Number e)
        (responseTo imp e reply))).
Proof.
  intros Hrel Hmay Hreq Hans.
  rewrite (handleClose_relevant imp gc e log Hrel). cbv zeta.
  rewrite Hmay. cbn [negb]. unfold requestedClose in Hreq. cbv zeta in Hreq.
  destruct (IsPR e); destruct (MatchString imp closeNotPlannedRe (Body e));
    try discriminate; injection Hreq as <-; cbn [closeAnswer] in Hans;
    rewrite Hans; unfold comment, responseTo; cbv zeta;
    rewrite <- app_assoc; reflexivity.
Qed.

Lemma handleClose_comments_after_close_witness :
  handleClose imports0 (github0 []) (event0 "/close" "author" false) [] =
  ([IsCollaboratorCall "org" "repo" "author";
    GetIssueLabelsCall "org" "repo" 1%Z;
    CloseIssueCall "org" "repo" 1%Z;
    CreateCommentCall "org" "repo" 1%Z "@author: Closing this issue."],
   None).
Proof.
  exact (handleClose_comments_after_close imports0 (github0 [])
           (event0 "/close" "author" false) []
           (CloseIssueCall "org" "repo" 1%Z)
           eq_refl eq_refl eq_refl eq_refl).
Defined.

End lifecycle_facts.

(** * Properties of resume tokens and of the classifiers *)

Lemma uuid_triples_safe :
  forallb
    (fun a =>
       forallb
         (fun b => forallb (tripleSafe a b) (map N_of_ascii uuidAlphabet))
         (map N_of_ascii uuidAlphabet))
    (map N_of_ascii uuidAlphabet) = true.
Proof. vm_compute. reflexivity. Qed.

Lemma encode_uuid_bytes (n : nat) :
  forall bs : list N,
    List.length bs = 3 * n ->
    Forall (fun b => In b (map N_of_ascii uuidAlphabet)) bs ->
    String.length (base64.encode bs) = 4 * n /\
    Forall (fun c => webSafe c = true)
      (list_ascii_of_string (base64.encode bs)).
Proof.
  induction n as [|n IH]; intros bs Hlen Hall.
  - destruct bs; [|discriminate]. split; [reflexivity|constructor].
  - destruct bs as [|a [|b [|c rest]]]; try (simpl in Hlen; lia).
    inversion Hall as [|? ? Ha Hall1]; subst.
    inversion Hall1 as [|? ? Hb Hall2]; subst.
    inversion Hall2 as [|? ? Hc Hrest]; subst.
    destruct (IH rest ltac:(simpl in Hlen; lia) Hrest) as [Hl Hs].
    pose proof uuid_triples_safe as Hsafe.
    rewrite forallb_forall in Hsafe. specialize (Hsafe a Ha).
    rewrite forallb_forall in Hsafe. specialize (Hsafe b Hb).
    rewrite forallb_forall in Hsafe. specialize (Hsafe c Hc).
    unfold tripleSafe in Hsafe. cbv zeta in Hsafe.
    cbn [forallb] in Hsafe.
    apply andb_prop in Hsafe. destruct Hsafe as [H1 Hsafe].
    apply andb_prop in Hsafe. destruct Hsafe as [H2 Hsafe].
    apply andb_prop in Hsafe. destruct Hsafe as [H3 Hsafe].
    apply andb_prop in Hsafe. destruct Hsafe as [H4 _].
    cbn [base64.encode]. cbv zeta. cbn [String.length list_ascii_of_string].
    split; [rewrite Hl; lia|].
    repeat (constructor; [assumption|]). exact Hs.
Qed.

(** When the UUID drawn has the usual string form, 36 characters among
    the hexadecimal digits in lower case and the hyphen, the token
    [resumeToken] returns is 48 characters long, all of them letters or
    digits: the standard encoding gives neither [+], [/] nor padding, so
    the token is web safe as the source asks. *)
Theorem resumeToken_web_safe (world : World) :
  String.length (uuid_New world (drawn world)) = 36 ->
  Forall (fun c => In c uuidAlphabet)
    (list_ascii_of_string (uuid_New world (drawn world))) ->
  String.length (fst (resumeToken world)) = 48 /\
  Forall (fun c => webSafe c = true)
    (list_ascii_of_string (fst (resumeToken world))).
Proof.
  intros Hlen Hchars.
  apply (encode_uuid_bytes 12).
  - rewrite length_map.
    assert (Hl : forall s,
               List.length (list_ascii_of_string s) = String.length s)
      by (induction s as [|c s IH]; [reflexivity|simpl; rewrite IH; reflexivity]).
    rewrite Hl, Hlen. reflexivity.
  - apply Forall_forall. intros b Hb. apply in_map_iff in Hb.
    destruct Hb as (c & <- & Hc). apply in_map.
    rewrite Forall_forall in Hchars. apply Hchars. exact Hc.
Qed.

Lemma resumeToken_web_safe_witness :
  String.length (fst (resumeToken world0)) = 48 /\
  Forall (fun c => webSafe c = true)
    (list_ascii_of_string (fst (resumeToken world0))).
Proof.
  apply resumeToken_web_safe.
  - reflexivity.
  - vm_compute. repeat (constructor; [tauto|]). constructor.
Defined.

(** [IsAlreadyExistsErr] holds exactly for an error whose status code is
    AlreadyExists. Such an error is always permanent and always carries a
    status: it is never nil, an error of the context, or the time-out of
    the retry loop. *)
Theorem IsAlreadyExistsErr_spec (err : option error) :
  IsAlreadyExistsErr err = N.eqb (codeOf err) codes.AlreadyExists /\
  (IsAlreadyExistsErr err = true ->
   IsPermanentError err = true /\
   exists msg, err = Some (statusError codes.AlreadyExists msg)).
Proof.
  split.
  - unfold IsAlreadyExistsErr, codeOf.
    destruct (status.FromError err); reflexivity.
  - intros H. split; [apply IsAlreadyExistsErr_permanent; exact H|].
    destruct err as [[c msg|msg|f v]|]; try discriminate.
    unfold IsAlreadyExistsErr in H. simpl in H.
    apply N.eqb_eq in H. subst c. exists msg. reflexivity.
Qed.

Lemma IsAlreadyExistsErr_spec_witness :
  IsPermanentError (Some (statusError codes.AlreadyExists "exists")) = true.
Proof.
  exact (proj1 (proj2 (IsAlreadyExistsErr_spec
                         (Some (statusError codes.AlreadyExists "exists")))
                  eq_refl)).
Defined.

(** * Properties of the job destination *)

Module util_facts.
Import util.
Local Open Scope string_scope.

Lemma prefix_app (p : string) :
  forall s, String.prefix p s = true <-> exists r, s = p ++ r.
Proof.
  induction p as [|a p IH]; intros s.
  - destruct s; simpl; split; eauto.
  - destruct s as [|b s]; simpl.
    + split; [discriminate|]. intros [r Hr]. discriminate.
    + destruct (ascii_dec a b) as [->|Hne].
      * rewrite IH. split; intros [r Hr]; exists r; congruence.
      * split; [discriminate|]. intros [r Hr]. congruence.
Qed.

Lemma Contains_unfold (s substr : string) :
  Contains s substr =
  if String.prefix substr s then true
  else match s with
       | EmptyString => false
       | String _ s' => Contains s' substr
       end.
Proof. destruct s; reflexivity. Qed.

(** [Contains] finds exactly the strings that have the given one inside. *)
Lemma Contains_spec (substr : string) :
  forall s, Contains s substr = true <-> exists a b, s = a ++ substr ++ b.
Proof.
  intros s. split.
  - induction s as [|c s IH]; rewrite Contains_unfold;
      destruct (String.prefix substr _) eqn:Hp.
    + intros _. apply prefix_app in Hp. destruct Hp as [r Hr].
      exists "", r. exact Hr.
    + discriminate.
    + intros _. apply prefix_app in Hp. destruct Hp as [r Hr].
      exists "", r. exact Hr.
    + intros H. destruct (IH H) as (a & b & ->).
      exists (String c a), b. reflexivity.
  - intros (a & b & ->). induction a as [|c a IH].
    + rewrite Contains_unfold.
      replace (String.prefix substr ("" ++ substr ++ b)) with true;
        [reflexivity|].
      symmetry. apply prefix_app. exists b. reflexivity.
    + rewrite Contains_unfold.
      destruct (String.prefix substr _); [reflexivity|].
      simpl. exact IH.
Qed.

(** A job whose GCS configuration was found is a GCS destination exactly
    when the bucket is not empty and either starts with [gs://] or has no
    [://] anywhere: a bare bucket name counts as GCS, a bucket with any
    other scheme does not. *)
Theorem IsGCSDestination_spec (imp : Imports) (pj : ProwJob)
    (gc : GCSConfiguration) :
  gcsConfig imp pj = inr gc ->
  (IsGCSDestination imp pj = true <->
   Bucket gc <> "" /\
   ((exists rest, Bucket gc = "gs://" ++ rest) \/
    (forall a b, Bucket gc <> a ++ "://" ++ b))).
Proof.
  intros Hgc. unfold IsGCSDestination. rewrite Hgc.
  destruct (String.eqb_spec (Bucket gc) "") as [He|Hne].
  - split; [discriminate|]. intros [H _]. contradiction.
  - unfold HasPrefix.
    destruct (String.prefix "gs://" (Bucket gc)) eqn:Hp.
    + apply prefix_app in Hp. split; auto.
    + destruct (Contains (Bucket gc) "://") eqn:Hc; cbn [negb].
      * apply Contains_spec in Hc. destruct Hc as (a & b & Hab).
        split; [discriminate|]. intros [_ [[rest Hrest]|Hno]].
        -- assert (Hp' : String.prefix "gs://" (Bucket gc) = true)
             by (apply prefix_app; exists rest; exact Hrest).
           congruence.
        -- exfalso. exact (Hno a b Hab).
      * split; [|reflexivity]. intros _. split; [exact Hne|]. right.
        intros a b Hab.
        assert (Hc' : Contains (Bucket gc) "://" = true)
          by (apply Contains_spec; exists a, b; exact Hab).
        congruence.
Qed.

Lemma IsGCSDestination_spec_witness :
  IsGCSDestination noDefaults (jobWithBucket "42" "gs://results") = true /\
  IsGCSDestination noDefaults (jobWithBucket "42" "s3://results") = false /\
  IsGCSDestination noDefaults (jobWithBucket "42" "results") = true.
Proof.
  split; [|split; reflexivity].
  apply (IsGCSDestination_spec noDefaults (jobWithBucket "42" "gs://results")
           {| Bucket := "gs://results"; GCSRest := "" |} eq_refl).
  split; [discriminate|]. left. exists "results". reflexivity.
Defined.

(** A job with no build identifier has no destination, whatever the job
    and the configuration say: [GetJobDestination] returns the error with
    an empty bucket and directory, and [IsGCSDestination] is false. *)
Theorem no_BuildID_no_destination (imp : Imports) (pj : ProwJob) :
  BuildID (Status pj) = "" ->
  GetJobDestination imp pj =
    ("", "",
     Some (errorString "cannot get job destination for job with no BuildID")) /\
  IsGCSDestination imp pj = false.
Proof.
  intros H. unfold GetJobDestination, IsGCSDestination, gcsConfig.
  rewrite H. split; reflexivity.
Qed.

Lemma no_BuildID_no_destination_witness :
  IsGCSDestination noDefaults (jobWithBucket "" "gs://results") = false.
Proof.
  exact (proj2 (no_BuildID_no_destination noDefaults
                  (jobWithBucket "" "gs://results") eq_refl)).
Defined.



(** The two entry points agree. When [GetJobDestination] fails the job is
    not a GCS destination; when it succeeds, the job is one exactly when
    the bucket it returns is not empty and starts with [gs://] or has no
    [://]. A job that is a GCS destination therefore always has a
    destination with a bucket. *)
Theorem destination_entry_points_agree (imp : Imports) (pj : ProwJob) :
  match GetJobDestination imp pj with
  | (bucket, dir, Some _) =>
      bucket = "" /\ dir = "" /\ IsGCSDestination imp pj = false
  | (bucket, dir, None) =>
      IsGCSDestination imp pj =
      negb (String.eqb bucket "")
      && (HasPrefix bucket "gs://" || negb (Contains bucket "://"))
  end.
Proof.
  unfold GetJobDestination, IsGCSDestination.
  destruct (gcsConfig imp pj) as [err|gc]; [auto|].
  destruct (String.eqb (Bucket gc) ""); [reflexivity|].
  destruct (HasPrefix (Bucket gc) "gs://"); reflexivity.
Qed.

End util_facts.
